(** * FCLMethodWrapper: the collision / distance engine of OMPL.app

    A shallow embedding of
    [src/omplapp/geometry/detail/FCLMethodWrapper.h] (and of the one method
    of [src/omplapp/apps/SE2RigidBodyPlanning.h] the properties below use),
    followed by the properties of the engine's three queries and of its
    construction.

    The wrapper is glue code around two libraries that are not part of the
    repository: FCL (intersection, conservative advancement and distance
    routines on bounding-volume models) and Assimp (mesh sources).  Their
    routines appear here as the fields of two interfaces, [FCL] and
    [Assimp]; the wrapper's own control flow, its data flow and its writes
    to the mutable member [robotParts_] are embedded statement by
    statement. *)

From Stdlib Require Import ZArith Lia Floats.
From stdpp Require Import base list.

Set Default Proof Using "Type".

(** ** Data of the two libraries *)

(** [fcl::BVH_REAL] is [double]: IEEE 754 binary64. *)
Definition BVH_REAL : Type := float.

(** [fcl::Vec3f]; its default constructor gives the zero vector. *)
Record Vec3f : Type := mkVec3f { vx : BVH_REAL; vy : BVH_REAL; vz : BVH_REAL }.
Arguments mkVec3f (vx vy vz)%_float.

Definition Vec3f_default : Vec3f := mkVec3f 0 0 0.

(** [fcl::SimpleQuaternion]; its default constructor gives the identity
    rotation (w = 1). *)
Record SimpleQuaternion : Type :=
  mkQuat { qw : BVH_REAL; qx : BVH_REAL; qy : BVH_REAL; qz : BVH_REAL }.
Arguments mkQuat (qw qx qy qz)%_float.

Definition SimpleQuaternion_default : SimpleQuaternion := mkQuat 1 0 0 0.

(** A rotation matrix, [fcl::Vec3f rot[3]]: three rows. *)
Record Matrix3 : Type := mkMatrix3 { row0 : Vec3f; row1 : Vec3f; row2 : Vec3f }.

Definition Matrix3_identity : Matrix3 :=
  mkMatrix3 (mkVec3f 1 0 0) (mkVec3f 0 1 0) (mkVec3f 0 0 1).

(** [fcl::Triangle]: three indices into the vertex array. *)
Record Triangle : Type := mkTriangle { tri0 : nat; tri1 : nat; tri2 : nat }.

(** [fcl::BVHModel<fcl::RSS>] (the wrapper's [Model]), reduced to what the
    wrapper reads and writes: the vertices and triangles handed to
    [addSubModel], and the placement [setTransform] stores on the object.
    A freshly built model sits at the identity placement. *)
Record Model : Type := mkModel {
  vertices : list Vec3f;
  tri_indices : list Triangle;
  rotation : Matrix3;
  translation : Vec3f
}.

(** [Model::num_tris], an [int]. *)
Definition num_tris (m : Model) : Z := Z.of_nat (length (tri_indices m)).

#[global] Instance Model_inhabited : Inhabited Model :=
  populate (mkModel [] [] Matrix3_identity Vec3f_default).

(** [fcl::InterpMotion<BVType>] has two constructors: the one taking the
    start and end placements, and the default one (a motion that stays at
    the identity placement). *)
Inductive InterpMotion : Type :=
| InterpMotion_between (rot1 : Matrix3) (trans1 : Vec3f) (rot2 : Matrix3) (trans2 : Vec3f)
| InterpMotion_default.

(** The routines of FCL the wrapper calls.  [collide] and
    [conservativeAdvancement] return the number of contacts found (an
    [int]); [conservativeAdvancement] also receives the time of contact by
    reference, so it maps the value it finds there to the value it leaves.
    [distance] stands for initialising a [MeshDistanceTraversalNodeRSS] on
    two models, running [fcl::distance] and reading [min_distance]. *)
Class FCL : Type := {
  toRotation : SimpleQuaternion -> Matrix3;
  collide : Model -> Model -> Z;
  conservativeAdvancement :
    Model -> InterpMotion -> Model -> InterpMotion -> BVH_REAL -> Z * BVH_REAL;
  distance : Model -> Model -> BVH_REAL
}.

(** What the wrapper uses of Assimp: a scene ([aiScene]) and the point
    type [aiVector3D], three [ai_real] coordinates with a subtraction
    ([operator-=]) that can be read as [BVH_REAL].

    Modelled from the spec: [scene::extractTriangles] is declared in
    [omplapp/geometry/detail/assimpUtil.h], which is not among the
    sources.  It is the Mesh Ingestion Adapter, which "converts scene
    geometry into a flat list of triangles (vertex triples)"; the wrapper
    calls it on an empty vector and reads the vector back as "the set of
    points, where each set of three contiguous points consists of a
    triangle".  It is a field of the interface, from a scene to its
    points. *)
Class Assimp : Type := {
  aiScene : Type;
  ai_real : Type;
  ai_real_zero : ai_real;
  ai_real_sub : ai_real -> ai_real -> ai_real;
  ai_real_to_BVH_REAL : ai_real -> BVH_REAL;
  extractTriangles : aiScene -> list (ai_real * ai_real * ai_real)
}.

Definition aiVector3D `{Assimp} : Type := (ai_real * ai_real * ai_real)%type.

(** The build the wrapper is compiled in: whether the macro [NDEBUG] is
    defined. *)
Class Build : Type := { NDEBUG : bool }.

(** [assert (e)], as to whether control goes on past it.  With [NDEBUG]
    defined the macro expands to nothing and [e] is not looked at;
    without it, a false [e] stops the program. *)
Definition assert_passes `{Build} (e : bool) : bool := NDEBUG || e.

Definition aiVector3D_sub `{Assimp} (a b : aiVector3D) : aiVector3D :=
  match a, b with
  | (ax, ay, az), (bx, by_, bz) =>
      (ai_real_sub ax bx, ai_real_sub ay by_, ai_real_sub az bz)
  end.

Definition aiVector3D_zero `{Assimp} : aiVector3D :=
  (ai_real_zero, ai_real_zero, ai_real_zero).

(** [fcl::Vec3f (t[j][0], t[j][1], t[j][2])]. *)
Definition Vec3f_of_aiVector3D `{Assimp} (p : aiVector3D) : Vec3f :=
  match p with
  | (x, y, z) =>
      mkVec3f (ai_real_to_BVH_REAL x) (ai_real_to_BVH_REAL y) (ai_real_to_BVH_REAL z)
  end.

(** [setTransform (quaternion, translation)] on a collision object. *)
Definition setTransform `{FCL} (q : SimpleQuaternion) (t : Vec3f) (m : Model) : Model :=
  mkModel (vertices m) (tri_indices m) (toRotation q) t.

(** ** Model construction *)

Section Construction.
Context `{Assimp} `{Build}.

(** [for (unsigned int j = 0; j < t.size (); j+=3)
       triangles.push_back (fcl::Triangle (j, j+1, j+2));]
    The loop is not structural in [j]; [fuel] bounds its iterations and
    [push_triangles] calls it with [t.size ()], more than it needs
    ([push_triangles_from_whole] below).  Indices are naturals: the
    counter is taken not to wrap, that is, a mesh source has fewer than
    2^32 - 2 points. *)
Fixpoint push_triangles_from (fuel j size : nat) (triangles : list Triangle)
  : list Triangle :=
  match fuel with
  | O => triangles
  | S fuel' =>
      if (j <? size)%nat
      then push_triangles_from fuel' (j + 3) size
             (triangles ++ [mkTriangle j (j + 1) (j + 2)])
      else triangles
  end.

Definition push_triangles (size : nat) (triangles : list Triangle) : list Triangle :=
  push_triangles_from size 0 size triangles.

(** The body of [getFCLModelFromScene (scenes, center)] from scene [i]
    on.  A scene pointer is an [option].  [None] is a conversion stopped
    by the [assert], which can happen only in a build with assertions;
    in a build with [NDEBUG] the loop goes on whatever the count of
    points is. *)
Fixpoint getFCLModelFromScene_from (i : nat) (scenes : list (option aiScene))
    (center : list aiVector3D) (pts : list Vec3f) (triangles : list Triangle)
  : option (list Vec3f * list Triangle) :=
  match scenes with
  | [] => Some (pts, triangles)
  | None :: rest => getFCLModelFromScene_from (S i) rest center pts triangles
  | Some scene :: rest =>
      let t := extractTriangles scene in
      let t :=
        match center !! i with
        | Some c => map (fun p => aiVector3D_sub p c) t
        | None => t
        end in
      if assert_passes (length t mod 3 =? 0)%nat
      then getFCLModelFromScene_from (S i) rest center
             (pts ++ map Vec3f_of_aiVector3D t)
             (push_triangles (length t) triangles)
      else None
  end.

(** [getFCLModelFromScene (const std::vector<const aiScene*> &,
                           const std::vector<aiVector3D> &)]. *)
Definition getFCLModelFromScene (scenes : list (option aiScene))
    (center : list aiVector3D) : option (list Vec3f * list Triangle) :=
  getFCLModelFromScene_from 0 scenes center [] [].

(** [getFCLModelFromScene (const aiScene *, const aiVector3D &)]. *)
Definition getFCLModelFromScene1 (scene : option aiScene) (center : aiVector3D)
  : option (list Vec3f * list Triangle) :=
  getFCLModelFromScene [scene] [center].

(** [beginModel (); addSubModel (first, second); endModel ();
    computeLocalAABB ();] on a fresh model. *)
Definition build_Model (tri_model : list Vec3f * list Triangle) : Model :=
  mkModel (fst tri_model) (snd tri_model) Matrix3_identity Vec3f_default.

(** Modelled from the spec: [GeometrySpecification] is declared in
    [omplapp/geometry/GeometrySpecification.h], which is not among the
    sources.  It is the "external input bundling the environment mesh
    source(s) plus one mesh source and shift vector per robot part"; the
    fields are the four vectors [configure] reads from it. *)
Record GeometrySpecification : Type := mkGeometrySpecification {
  obstacles : list (option aiScene);
  obstaclesShift : list aiVector3D;
  robot : list (option aiScene);
  robotShift : list aiVector3D
}.

(** The robot loop of [configure], from piece [rbt] on. *)
Fixpoint configure_robot_from (rbt : nat) (pieces : list (option aiScene))
    (shifts : list aiVector3D) (robotParts : list Model) : option (list Model) :=
  match pieces with
  | [] => Some robotParts
  | piece :: rest =>
      let shift := default aiVector3D_zero (shifts !! rbt) in
      match getFCLModelFromScene1 piece shift with
      | Some tri_model =>
          configure_robot_from (S rbt) rest shifts (robotParts ++ [build_Model tri_model])
      | None => None
      end
  end.
End Construction.

(** ** The wrapper *)

(** The members of [FCLMethodWrapper].  [State] is [ompl::base::State].
    [extractState_] is the [GeometricStateExtractor]; the pose callback is
    taken to set both of its output arguments, so it appears as a function
    to the pair (translation, rotation).  [msg_] only prints, and [mutex_]
    orders whole calls of different threads; neither is a field here. *)
Record FCLMethodWrapper (State : Type) : Type := mkFCLMethodWrapper {
  environment_ : Model;
  robotParts_ : list Model;
  extractState_ : State -> nat -> State;
  selfCollision_ : bool;
  poseFromStateCallback_ : State -> Vec3f * SimpleQuaternion
}.
Arguments mkFCLMethodWrapper {State}.
Arguments environment_ {State}.
Arguments robotParts_ {State}.
Arguments extractState_ {State}.
Arguments selfCollision_ {State}.
Arguments poseFromStateCallback_ {State}.

(** A call a query makes to one of its collaborators, as it appears in the
    query's trace. *)
Inductive Call (State : Type) : Type :=
| Call_poseFromState (state : State) (i : nat)
| Call_collide (o1 o2 : Model)
| Call_conservativeAdvancement
    (o1 : Model) (motion1 : InterpMotion) (o2 : Model) (motion2 : InterpMotion)
    (toc : BVH_REAL)
| Call_distance (o1 o2 : Model).
Arguments Call_poseFromState {State}.
Arguments Call_collide {State}.
Arguments Call_conservativeAdvancement {State}.
Arguments Call_distance {State}.

(** A query is a [const] method: it reads the wrapper, may write its
    [mutable] members, and calls collaborators.  It maps the wrapper before
    the call to its result, the wrapper after the call and the trace of
    collaborator calls, in order. *)
Definition Query (State A : Type) : Type :=
  FCLMethodWrapper State -> A * FCLMethodWrapper State * list (Call State).

#[global] Instance Query_ret {State} : MRet (Query State) :=
  fun A a w => (a, w, []).

#[global] Instance Query_bind {State} : MBind (Query State) :=
  fun A B f m w =>
    let '(a, w1, calls1) := m w in
    let '(b, w2, calls2) := f a w1 in
    (b, w2, calls1 ++ calls2).

Definition value {State A} (r : A * FCLMethodWrapper State * list (Call State)) : A :=
  r.1.1.

Definition final {State A} (r : A * FCLMethodWrapper State * list (Call State))
  : FCLMethodWrapper State := r.1.2.

Definition trace {State A} (r : A * FCLMethodWrapper State * list (Call State))
  : list (Call State) := r.2.

Section Wrapper.
Context `{FCL} `{Assimp} `{Build} {State : Type}.

Abbreviation Wrapper := (FCLMethodWrapper State).
Abbreviation Q := (Query State).

(** [configure]: the environment model first, then one model per robot
    piece, appended to [robotParts_]. *)
Definition configure (geom : GeometrySpecification) (self : Wrapper) : option Wrapper :=
  match getFCLModelFromScene (obstacles geom) (obstaclesShift geom) with
  | None => None
  | Some tri_model =>
      match configure_robot_from 0 (robot geom) (robotShift geom) (robotParts_ self) with
      | None => None
      | Some parts =>
          Some (mkFCLMethodWrapper (build_Model tri_model) parts
                  (extractState_ self) (selfCollision_ self)
                  (poseFromStateCallback_ self))
      end
  end.

(** The constructor: the member initialisers, then [configure (geom)].
    [None] is a construction that did not return (an [assert] stopped
    it). *)
Definition FCLMethodWrapper_new (geom : GeometrySpecification)
    (se : State -> nat -> State) (selfCollision : bool)
    (poseCallback : State -> Vec3f * SimpleQuaternion) : option Wrapper :=
  configure geom (mkFCLMethodWrapper (build_Model ([], [])) [] se selfCollision poseCallback).

(** *** Primitive steps of a query *)

Definition this : Q Wrapper := fun w => (w, w, []).

(** [robotParts_[i]], read. *)
Definition robotPart (i : nat) : Q Model := fun w => (robotParts_ w !!! i, w, []).

(** [robotParts_[i].setTransform (quaternion, translation)]. *)
Definition robotPart_setTransform (i : nat) (q : SimpleQuaternion) (t : Vec3f) : Q unit :=
  fun w =>
    (tt,
     mkFCLMethodWrapper (environment_ w)
       (alter (setTransform q t) i (robotParts_ w))
       (extractState_ w) (selfCollision_ w) (poseFromStateCallback_ w),
     []).

(** [poseFromStateCallback_ (translation, quaternion, extractState_ (state, i))]. *)
Definition poseFromState (state : State) (i : nat) : Q (Vec3f * SimpleQuaternion) :=
  fun w => (poseFromStateCallback_ w (extractState_ w state i), w,
            [Call_poseFromState state i]).

Definition fcl_collide (o1 o2 : Model) : Q Z :=
  fun w => (collide o1 o2, w, [Call_collide o1 o2]).

Definition fcl_conservativeAdvancement (o1 : Model) (motion1 : InterpMotion)
    (o2 : Model) (motion2 : InterpMotion) (toc : BVH_REAL) : Q (Z * BVH_REAL) :=
  fun w => (conservativeAdvancement o1 motion1 o2 motion2 toc, w,
            [Call_conservativeAdvancement o1 motion1 o2 motion2 toc]).

Definition fcl_distance (o1 o2 : Model) : Q BVH_REAL :=
  fun w => (distance o1 o2, w, [Call_distance o1 o2]).

(** [for (i = first; i < first + count && continue (locals); ++i) body]:
    [locals] are the variables the loop carries, [continue] the part of
    the loop condition that reads them.  The queries never change the
    size of [robotParts_], so [count] is fixed when the loop starts. *)
Fixpoint for_loop {L : Type} (continue : L -> bool) (count i : nat)
    (body : nat -> L -> Q L) (locals : L) : Q L :=
  match count with
  | O => mret locals
  | S count' =>
      if continue locals
      then locals' ← body i locals; for_loop continue count' (S i) body locals'
      else mret locals
  end.

(** *** [transformRobot] *)

Definition transformRobot (state : State) : Q unit :=
  self ← this;
  for_loop (fun _ => true) (length (robotParts_ self)) 0
    (fun i _ =>
       '(translation, quaternion) ← poseFromState state i;
       robotPart_setTransform i quaternion translation)
    tt.

(** *** [isValid (state)], the discrete query *)

Definition isValid (state : State) : Q bool :=
  self ← this;
  let size := length (robotParts_ self) in
  valid ←
    (if (0 <? num_tris (environment_ self))%Z
     then
       transformRobot state;;
       for_loop id size 0
         (fun i valid =>
            part_i ← robotPart i;
            contacts ← fcl_collide part_i (environment_ self);
            mret (valid && (contacts =? 0)%Z))
         true
     else mret true);
  if selfCollision_ self && valid
  then
    for_loop id size 0
      (fun i valid =>
         for_loop id (size - (i + 1)) (i + 1)
           (fun j valid =>
              part_i ← robotPart i;
              part_j ← robotPart j;
              contacts ← fcl_collide part_i part_j;
              mret (valid && (contacts =? 0)%Z))
           valid)
      valid
  else mret valid.

(** *** [isValid (s1, s2, collisionTime)], the continuous query *)

(** The motion of part [i] from its pose at [s1] to its pose at [s2]. *)
Definition interpolate (s1 s2 : State) (i : nat) : Q InterpMotion :=
  '(trans1, quat1) ← poseFromState s1 i;
  '(trans2, quat2) ← poseFromState s2 i;
  let rot1 := toRotation quat1 in
  let rot2 := toRotation quat2 in
  mret (InterpMotion_between rot1 trans1 rot2 trans2).

(** The result pairs the returned [bool] with the value left in
    [collisionTime]. *)
Definition isValid_motion (s1 s2 : State) : Q (bool * BVH_REAL) :=
  self ← this;
  let size := length (robotParts_ self) in
  let collisionTime := 1%float in
  r ←
    (if (0 <? num_tris (environment_ self))%Z
     then
       for_loop fst size 0
         (fun i '(valid, collisionTime) =>
            motion1 ← interpolate s1 s2 i;
            let motion2 := InterpMotion_default in
            part_i ← robotPart i;
            '(contacts, collisionTime) ←
              fcl_conservativeAdvancement part_i motion1 (environment_ self) motion2
                collisionTime;
            mret (valid && (contacts =? 0)%Z, collisionTime))
         (true, collisionTime)
     else mret (true, collisionTime));
  if selfCollision_ self && fst r
  then
    for_loop fst size 0
      (fun i r =>
         motion_i ← interpolate s1 s2 i;
         for_loop fst (size - (i + 1)) (i + 1)
           (fun j '(valid, collisionTime) =>
              motion_j ← interpolate s1 s2 j;
              part_i ← robotPart i;
              part_j ← robotPart j;
              '(contacts, collisionTime) ←
                fcl_conservativeAdvancement part_i motion_i part_j motion_j
                  collisionTime;
              mret (valid && (contacts =? 0)%Z, collisionTime))
           r)
      r
  else mret r.

(** *** [clearance (state)] *)

Definition clearance (state : State) : Q BVH_REAL :=
  self ← this;
  let dist := infinity in
  if (0 <? num_tris (environment_ self))%Z
  then
    transformRobot state;;
    for_loop (fun _ => true) (length (robotParts_ self)) 0
      (fun i dist =>
         part_i ← robotPart i;
         min_distance ← fcl_distance (environment_ self) part_i;
         mret (if (min_distance <? dist)%float then min_distance else dist))
      dist
  else mret dist.
End Wrapper.

(** ** [SE2RigidBodyPlanning] *)

Module SE2RigidBodyPlanning.
Definition isSelfCollisionEnabled : bool := false.

Definition getRobotCount : nat := 1.

Definition getGeometricComponentStateInternal {State : Type} (state : State)
    (index : nat) : State := state.
End SE2RigidBodyPlanning.

(** ** A small world to run the queries in

    An instance of the two interfaces that computes.  A scene is the list
    of its points.  Two models are in contact when a placed vertex of one
    coincides with a placed vertex of the other; a motion is tested at its
    start (time 0) and at its end (time 0.5 stands for a contact on the
    way); the distance between two models is the smallest gap between
    their placed vertices.  A planner state lists the x-translation of
    each robot part. *)

Module World.
Definition dot (a b : Vec3f) : BVH_REAL :=
  (vx a * vx b + vy a * vy b + vz a * vz b)%float.

(** A vertex under a placement (rotation, then translation). *)
Definition place (rot : Matrix3) (trans : Vec3f) (v : Vec3f) : Vec3f :=
  mkVec3f (dot (row0 rot) v + vx trans) (dot (row1 rot) v + vy trans)
    (dot (row2 rot) v + vz trans).

Definition placed (rot : Matrix3) (trans : Vec3f) (m : Model) : list Vec3f :=
  map (place rot trans) (vertices m).

Definition Vec3f_eqb (a b : Vec3f) : bool :=
  (vx a =? vx b)%float && (vy a =? vy b)%float && (vz a =? vz b)%float.

Definition touching (a b : list Vec3f) : bool :=
  existsb (fun p => existsb (Vec3f_eqb p) b) a.

Definition motion_start (m : InterpMotion) : Matrix3 * Vec3f :=
  match m with
  | InterpMotion_between rot1 trans1 _ _ => (rot1, trans1)
  | InterpMotion_default => (Matrix3_identity, Vec3f_default)
  end.

Definition motion_end (m : InterpMotion) : Matrix3 * Vec3f :=
  match m with
  | InterpMotion_between _ _ rot2 trans2 => (rot2, trans2)
  | InterpMotion_default => (Matrix3_identity, Vec3f_default)
  end.

Definition touching_at (p1 : Matrix3 * Vec3f) (o1 : Model)
    (p2 : Matrix3 * Vec3f) (o2 : Model) : bool :=
  touching (placed p1.1 p1.2 o1) (placed p2.1 p2.2 o2).

Definition gap (a b : Vec3f) : BVH_REAL :=
  (abs (vx a - vx b) + abs (vy a - vy b) + abs (vz a - vz b))%float.

Definition DBL_MAX : BVH_REAL := 0x1.fffffffffffffp+1023%float.

Definition smaller (d acc : BVH_REAL) : BVH_REAL :=
  if (d <? acc)%float then d else acc.

#[export] Instance fcl : FCL := {|
  toRotation q :=
    let '(w, x, y, z) := (qw q, qx q, qy q, qz q) in
    mkMatrix3
      (mkVec3f (1 - 2 * (y * y + z * z)) (2 * (x * y - z * w)) (2 * (x * z + y * w)))
      (mkVec3f (2 * (x * y + z * w)) (1 - 2 * (x * x + z * z)) (2 * (y * z - x * w)))
      (mkVec3f (2 * (x * z - y * w)) (2 * (y * z + x * w)) (1 - 2 * (x * x + y * y)));
  collide o1 o2 :=
    if touching (placed (rotation o1) (translation o1) o1)
         (placed (rotation o2) (translation o2) o2)
    then 1%Z else 0%Z;
  conservativeAdvancement o1 motion1 o2 motion2 toc :=
    if touching_at (motion_start motion1) o1 (motion_start motion2) o2
    then (1%Z, 0%float)
    else if touching_at (motion_end motion1) o1 (motion_end motion2) o2
         then (1%Z, 0.5%float)
         else (0%Z, 1%float);
  distance o1 o2 :=
    foldr smaller DBL_MAX
      (p ← placed (rotation o1) (translation o1) o1;
       q ← placed (rotation o2) (translation o2) o2;
       [gap p q])
|}.

#[export] Instance assimp : Assimp := {|
  aiScene := list (float * float * float);
  ai_real := float;
  ai_real_zero := 0%float;
  ai_real_sub := PrimFloat.sub;
  ai_real_to_BVH_REAL x := x;
  extractTriangles scene := scene
|}.

(** The world is built with assertions. *)
#[export] Instance with_assertions : Build := {| NDEBUG := false |}.

(** The other build, with [NDEBUG] defined. *)
Definition without_assertions : Build := {| NDEBUG := true |}.

(** The routines of the world, with a distance routine that finds nothing
    within reach and reports infinity. *)
Definition fcl_out_of_reach : FCL := {|
  toRotation := toRotation;
  collide := collide;
  conservativeAdvancement := conservativeAdvancement;
  distance _ _ := infinity
|}.

(** The routines of the world, with a distance routine that reports a
    NaN. *)
Definition fcl_no_number : FCL := {|
  toRotation := toRotation;
  collide := collide;
  conservativeAdvancement := conservativeAdvancement;
  distance _ _ := nan
|}.

Definition State : Type := list BVH_REAL.

Definition se (state : State) (i : nat) : State := [default 0%float (state !! i)].

Definition poseCallback (state : State) : Vec3f * SimpleQuaternion :=
  (mkVec3f (default 0%float (head state)) 0 0, SimpleQuaternion_default).

(** A triangle with a corner at [(x, 0, 0)]. *)
Definition triangle_at (x : float) : aiScene :=
  [(x, 0, 0); (x + 1, 0, 0); (x, 1, 0)]%float.

(** Four points: not a whole number of triangles. *)
Definition four_points : aiScene := [(0, 0, 0); (1, 0, 0); (0, 1, 0); (0, 0, 1)]%float.

(** No obstacle; two parts, ten units apart along x. *)
Definition two_parts : GeometrySpecification :=
  mkGeometrySpecification [] [] [Some (triangle_at 0); Some (triangle_at 10)] [].

(** One obstacle triangle at x = 5; one part at the origin. *)
Definition one_part_one_obstacle : GeometrySpecification :=
  mkGeometrySpecification [Some (triangle_at 5)] [] [Some (triangle_at 0)] [].

(** One obstacle triangle at x = 5; two parts, built ten units apart. *)
Definition two_parts_one_obstacle : GeometrySpecification :=
  mkGeometrySpecification [Some (triangle_at 5)] []
    [Some (triangle_at 0); Some (triangle_at 10)] [].

(** One obstacle triangle; no robot part at all. *)
Definition no_part_one_obstacle : GeometrySpecification :=
  mkGeometrySpecification [Some (triangle_at 5)] [] [] [].

(** A null obstacle pointer; one part. *)
Definition null_obstacle : GeometrySpecification :=
  mkGeometrySpecification [None] [(1, 1, 1)%float] [Some (triangle_at 0)] [].

(** A part whose mesh source has four points. *)
Definition four_point_part : GeometrySpecification :=
  mkGeometrySpecification [Some (triangle_at 5)] [] [Some four_points] [].

Definition engine (geom : GeometrySpecification) (selfCollision : bool)
  : option (FCLMethodWrapper State) :=
  FCLMethodWrapper_new geom se selfCollision poseCallback.

(** The engine of a specification whose construction returns. *)
Definition the_engine (geom : GeometrySpecification) (selfCollision : bool)
  : FCLMethodWrapper State :=
  default (mkFCLMethodWrapper (build_Model ([], [])) [] se selfCollision poseCallback)
    (engine geom selfCollision).
End World.

(** ** What the properties speak of *)

Section Notions.
Context `{FCL} {State : Type}.

(** The wrapper with another value of the self-collision flag. *)
Definition with_selfCollision (b : bool) (w : FCLMethodWrapper State)
  : FCLMethodWrapper State :=
  mkFCLMethodWrapper (environment_ w) (robotParts_ w) (extractState_ w) b
    (poseFromStateCallback_ w).

(** The wrapper with other robot-part models. *)
Definition with_robotParts (parts : list Model) (w : FCLMethodWrapper State)
  : FCLMethodWrapper State :=
  mkFCLMethodWrapper (environment_ w) parts (extractState_ w) (selfCollision_ w)
    (poseFromStateCallback_ w).

(** Part [i] at the pose the callback gives it in [state]. *)
Definition pose_part (w : FCLMethodWrapper State) (state : State) (i : nat)
    (part : Model) : Model :=
  let '(translation, quaternion) :=
    poseFromStateCallback_ w (extractState_ w state i) in
  setTransform quaternion translation part.

(** The robot-part models at the poses implied by [state]. *)
Definition posed_parts (state : State) (w : FCLMethodWrapper State) : list Model :=
  imap (pose_part w state) (robotParts_ w).

(** The motion the continuous query builds for part [i]. *)
Definition motion_between (w : FCLMethodWrapper State) (s1 s2 : State) (i : nat)
  : InterpMotion :=
  let '(trans1, quat1) := poseFromStateCallback_ w (extractState_ w s1 i) in
  let '(trans2, quat2) := poseFromStateCallback_ w (extractState_ w s2 i) in
  InterpMotion_between (toRotation quat1) trans1 (toRotation quat2) trans2.

(** Some part of [parts] intersects [env]. *)
Definition hits_environment (parts : list Model) (env : Model) : Prop :=
  exists (i : nat) (p : Model), parts !! i = Some p /\ collide p env <> 0%Z.

(** Some pair of distinct parts of [parts] intersects. *)
Definition hits_itself (parts : list Model) : Prop :=
  exists (i j : nat) (p_i p_j : Model),
    (i < j)%nat /\ parts !! i = Some p_i /\ parts !! j = Some p_j /\
    collide p_i p_j <> 0%Z.

(** The models the tests of [isValid (state)] read: [transformRobot] runs
    only under the test for a non-empty environment. *)
Definition parts_tested (state : State) (w : FCLMethodWrapper State) : list Model :=
  if (0 <? num_tris (environment_ w))%Z then posed_parts state w else robotParts_ w.

(** The tests of the two loops of [isValid (state)], on the models
    [parts]. *)
Definition clear_of_environment (parts : list Model) (env : Model) (size : nat)
  : bool :=
  forallb (fun i => (collide (parts !!! i) env =? 0)%Z) (seq 0 size).

Definition clear_of_itself (parts : list Model) (size : nat) : bool :=
  forallb
    (fun i =>
       forallb (fun j => (collide (parts !!! i) (parts !!! j) =? 0)%Z)
         (seq (i + 1) (size - (i + 1))))
    (seq 0 size).

(** What the wrapper relies on from [fcl::conservativeAdvancement]: a
    call that finds the time of contact at 1.0 and reports no contact
    leaves it at 1.0, and a call that reports a contact leaves a time in
    [0, 1). *)
Definition no_contact_keeps_time : Prop :=
  forall o1 motion1 o2 motion2,
    (conservativeAdvancement o1 motion1 o2 motion2 1%float).1 = 0%Z ->
    (conservativeAdvancement o1 motion1 o2 motion2 1%float).2 = 1%float.

Definition time_in_range (t : BVH_REAL) : Prop :=
  (0 <=? t)%float = true /\ (t <? 1)%float = true.

Definition contact_time_in_range : Prop :=
  forall o1 motion1 o2 motion2 toc,
    (conservativeAdvancement o1 motion1 o2 motion2 toc).1 <> 0%Z ->
    time_in_range (conservativeAdvancement o1 motion1 o2 motion2 toc).2.

(** One test of the continuous query, seen from the loop variables: a
    call of the conservative-advancement routine at the current time of
    contact, entered with [valid] set. *)
Definition advancement_kept (P : bool * BVH_REAL -> Prop) : Prop :=
  forall o1 motion1 o2 motion2 toc,
    P (true, toc) ->
    P (((conservativeAdvancement o1 motion1 o2 motion2 toc).1 =? 0)%Z,
       (conservativeAdvancement o1 motion1 o2 motion2 toc).2).

(** A distance that is a number, not negative and not infinite. *)
Definition finite_distance (d : BVH_REAL) : Prop :=
  (0 <=? d)%float = true /\ (d <? infinity)%float = true.

(** A distance that is a number: it compares equal to itself, which a
    NaN does not. *)
Definition is_number (d : BVH_REAL) : Prop := (d =? d)%float = true.

(** The running minimum of [clearance]. *)
Definition keep_smaller (dist min_distance : BVH_REAL) : BVH_REAL :=
  if (min_distance <? dist)%float then min_distance else dist.

(** Discrete queries run one after the other on the same wrapper, each
    finding the poses its predecessor left. *)
Fixpoint isValid_each (states : list State) : Query State (list bool) :=
  match states with
  | [] => mret []
  | state :: states =>
      valid ← isValid state;
      valids ← isValid_each states;
      mret (valid :: valids)
  end.

(** A loop without the wrapper: [step] is what one iteration does to the
    loop's variables. *)
Fixpoint iterate {L : Type} (continue : L -> bool) (count i : nat)
    (step : nat -> L -> L) (locals : L) : L :=
  match count with
  | O => locals
  | S count' =>
      if continue locals
      then iterate continue count' (S i) step (step i locals)
      else locals
  end.
End Notions.

Section ConstructionNotions.
Context `{Assimp}.

(** A mesh source that is there and whose point count is not a multiple
    of 3. *)
Definition malformed (source : option aiScene) : Prop :=
  exists scene, source = Some scene /\ (length (extractTriangles scene) mod 3 <> 0)%nat.

(** A mesh source that is null or has a whole number of triangles. *)
Definition well_formed (source : option aiScene) : Prop :=
  forall scene, source = Some scene -> (length (extractTriangles scene) mod 3 = 0)%nat.

(** The model built for a null mesh source has no vertex and no
    triangle. *)
Definition empty_if_null (source : option aiScene) (m : Model) : Prop :=
  source = None -> vertices m = [] /\ tri_indices m = [].
End ConstructionNotions.

Section ConstructionShapeNotions.
Context `{Assimp}.

(** The points of a mesh source after the shift: [center[i]] is
    subtracted when the vector of shifts reaches index [i]. *)
Definition shifted_points (center : list aiVector3D) (i : nat) (scene : aiScene)
  : list aiVector3D :=
  match center !! i with
  | Some c => map (fun p => aiVector3D_sub p c) (extractTriangles scene)
  | None => extractTriangles scene
  end.

(** What mesh source [i] adds to the points of a model. *)
Definition source_points (center : list aiVector3D) (i : nat)
    (source : option aiScene) : list Vec3f :=
  match source with
  | Some scene => map Vec3f_of_aiVector3D (shifted_points center i scene)
  | None => []
  end.

(** The triangles over [3 * count] points: [(0, 1, 2)], [(3, 4, 5)], ... *)
Definition consecutive_triangles (count : nat) : list Triangle :=
  map (fun k => mkTriangle (3 * k) (3 * k + 1) (3 * k + 2)) (seq 0 count).

(** What a mesh source adds to the triangles of a model: the indices
    count the points of this source, from 0. *)
Definition source_triangles (source : option aiScene) : list Triangle :=
  match source with
  | Some scene => consecutive_triangles (length (extractTriangles scene) / 3)
  | None => []
  end.

(** A triangle whose corners are three consecutive indices below
    [bound]. *)
Definition triangle_within (bound : nat) (t : Triangle) : Prop :=
  tri1 t = (tri0 t + 1)%nat /\ tri2 t = (tri0 t + 2)%nat /\ (tri2 t < bound)%nat.

(** The model of robot piece [rbt]: its own points, shifted by
    [robotShift[rbt]] or by the zero vector when there is no such entry,
    at the identity placement. *)
Definition robot_piece_model (shifts : list aiVector3D) (rbt : nat)
    (piece : option aiScene) : Model :=
  build_Model
    (source_points [default aiVector3D_zero (shifts !! rbt)] 0 piece,
     source_triangles piece).
End ConstructionShapeNotions.

Section TraceNotions.
Context `{FCL} {State : Type}.

(** A call whose routine reports a contact. *)
Definition reports_contact (c : Call State) : Prop :=
  match c with
  | Call_collide o1 o2 => collide o1 o2 <> 0%Z
  | Call_conservativeAdvancement o1 motion1 o2 motion2 toc =>
      (conservativeAdvancement o1 motion1 o2 motion2 toc).1 <> 0%Z
  | _ => False
  end.

(** A trace without a reported contact. *)
Definition contact_free (calls : list (Call State)) : Prop :=
  Forall (fun c => ~ reports_contact c) calls.

(** The trace of a discrete query that returned [valid]: no call reported
    a contact if it is true; if it is false, the last call did, and no
    call before it. *)
Definition stops_at_contact (valid : bool) (calls : list (Call State)) : Prop :=
  if valid then contact_free calls
  else exists before c,
      calls = before ++ [c] /\ contact_free before /\ reports_contact c.

(** The same for the continuous query, whose result carries the time of
    contact: when it is invalid, the time is the one the last call left. *)
Definition stops_at_advancement (r : bool * BVH_REAL) (calls : list (Call State))
  : Prop :=
  if r.1 then contact_free calls
  else exists before o1 motion1 o2 motion2 toc,
      calls = before ++ [Call_conservativeAdvancement o1 motion1 o2 motion2 toc]
      /\ contact_free before
      /\ (conservativeAdvancement o1 motion1 o2 motion2 toc).1 <> 0%Z
      /\ r.2 = (conservativeAdvancement o1 motion1 o2 motion2 toc).2.
End TraceNotions.

Section GeometryNotions.
Context `{FCL} {State : Type}.

(** What a model is made of, its placement apart. *)
Definition geometry (m : Model) : list Vec3f * list Triangle :=
  (vertices m, tri_indices m).

(** Two wrappers that differ at most in the placements of the robot
    parts. *)
Definition same_geometry (w w' : FCLMethodWrapper State) : Prop :=
  environment_ w' = environment_ w
  /\ map geometry (robotParts_ w') = map geometry (robotParts_ w)
  /\ extractState_ w' = extractState_ w
  /\ selfCollision_ w' = selfCollision_ w
  /\ poseFromStateCallback_ w' = poseFromStateCallback_ w.
End GeometryNotions.

Section KindNotions.
Context {State : Type}.

(** The calls a discrete query may make. *)
Definition discrete_call (c : Call State) : Prop :=
  match c with
  | Call_poseFromState _ _ | Call_collide _ _ => True
  | _ => False
  end.

(** The calls a continuous query may make. *)
Definition continuous_call (c : Call State) : Prop :=
  match c with
  | Call_poseFromState _ _ | Call_conservativeAdvancement _ _ _ _ _ => True
  | _ => False
  end.
End KindNotions.

(** ** Properties *)

Section QueryFacts.
Context `{FCL} {State : Type}.

Implicit Types (w : FCLMethodWrapper State) (state : State).

Lemma value_bind {A B} (m : Query State A) (f : A -> Query State B) w :
  value ((m ≫= f) w) = value (f (value (m w)) (final (m w))).
Proof.
  unfold mbind, Query_bind, value, final.
  destruct (m w) as [[a w1] c1]; simpl.
  by destruct (f a w1) as [[b w2] c2].
Qed.

Lemma final_bind {A B} (m : Query State A) (f : A -> Query State B) w :
  final ((m ≫= f) w) = final (f (value (m w)) (final (m w))).
Proof.
  unfold mbind, Query_bind, value, final.
  destruct (m w) as [[a w1] c1]; simpl.
  by destruct (f a w1) as [[b w2] c2].
Qed.

Lemma trace_bind {A B} (m : Query State A) (f : A -> Query State B) w :
  trace ((m ≫= f) w) = trace (m w) ++ trace (f (value (m w)) (final (m w))).
Proof.
  unfold mbind, Query_bind, value, final, trace.
  destruct (m w) as [[a w1] c1]; simpl.
  by destruct (f a w1) as [[b w2] c2].
Qed.

(** A loop whose body leaves the wrapper as it found it does so too. *)
Lemma for_loop_final {L} (continue : L -> bool) (body : nat -> L -> Query State L) :
  (forall i l w, final (body i l w) = w) ->
  forall count i l w, final (for_loop continue count i body l w) = w.
Proof.
  intros Hbody count.
  induction count as [|count IH]; intros i l w; simpl; [done|].
  destruct (continue l); [|done].
  by rewrite final_bind, Hbody, IH.
Qed.

(** Such a loop computes what [iterate] computes from the values of its
    body. *)
Lemma for_loop_value {L} (continue : L -> bool) (body : nat -> L -> Query State L) w :
  (forall i l, final (body i l w) = w) ->
  forall count i l,
    value (for_loop continue count i body l w)
    = iterate continue count i (fun i l => value (body i l w)) l.
Proof.
  intros Hbody count.
  induction count as [|count IH]; intros i l; simpl; [done|].
  destruct (continue l); [|done].
  by rewrite value_bind, Hbody, IH.
Qed.

(** A property of the loop variables that every iteration keeps holds
    when the loop ends. *)
Lemma iterate_invariant {L} (P : L -> Prop) (continue : L -> bool)
    (step : nat -> L -> L) :
  (forall i l, continue l = true -> P l -> P (step i l)) ->
  forall count i l, P l -> P (iterate continue count i step l).
Proof.
  intros Hstep count.
  induction count as [|count IH]; intros i l Hl; simpl; [done|].
  destruct (continue l) eqn:Hc; [|done].
  apply IH. by apply Hstep.
Qed.

(** A loop on [valid] alone, with [valid &= test i] as its body, ends
    with the conjunction of the tests. *)
Lemma iterate_valid (test : nat -> bool) count i valid :
  iterate id count i (fun i valid => valid && test i) valid
  = valid && forallb test (seq i count).
Proof.
  revert i valid.
  induction count as [|count IH]; intros i valid; simpl.
  - by rewrite andb_true_r.
  - destruct valid; simpl; [|done].
    rewrite IH. by destruct (test i).
Qed.
End QueryFacts.

Section TransformRobot.
Context `{FCL} {State : Type}.

Implicit Types (w : FCLMethodWrapper State) (state : State).

Lemma with_robotParts_same w : with_robotParts (robotParts_ w) w = w.
Proof. by destruct w. Qed.

(** The loop of [transformRobot], started at part [length before]: the
    parts before it keep what they have, each part from it on gets its
    pose, and the callback is called once for each of these. *)
Lemma transformRobot_from state w (before todo : list Model) :
  for_loop (fun _ => true) (length todo) (length before)
    (fun i _ =>
       '(translation, quaternion) ← poseFromState state i;
       robotPart_setTransform i quaternion translation)
    tt (with_robotParts (before ++ todo) w)
  = (tt,
     with_robotParts
       (before ++ imap (fun k => pose_part w state (length before + k)) todo) w,
     map (Call_poseFromState state) (seq (length before) (length todo))).
Proof.
  revert before.
  induction todo as [|part todo IH]; intros before; simpl.
  - done.
  - unfold mbind at 1, Query_bind at 1.
    unfold mbind at 1, Query_bind at 1.
    unfold poseFromState at 1; simpl.
    destruct (poseFromStateCallback_ w (extractState_ w state (length before)))
      as [translation quaternion] eqn:Hpose.
    unfold robotPart_setTransform at 1; simpl.
    change (mkFCLMethodWrapper (environment_ w)
              (alter (setTransform quaternion translation) (length before)
                 (before ++ part :: todo))
              (extractState_ w) (selfCollision_ w) (poseFromStateCallback_ w))
      with (with_robotParts
              (alter (setTransform quaternion translation) (length before)
                 (before ++ part :: todo)) w).
    rewrite alter_app_r_alt by lia. rewrite Nat.sub_diag. simpl.
    specialize (IH (before ++ [setTransform quaternion translation part])).
    rewrite <- app_assoc in IH. simpl in IH.
    rewrite length_app in IH. simpl in IH.
    replace (length before + 1)%nat with (S (length before)) in IH by lia.
    rewrite IH. f_equal. f_equal. f_equal.
    rewrite <- app_assoc. simpl. f_equal. f_equal.
    + unfold pose_part. rewrite Nat.add_0_r, Hpose. done.
    + apply imap_ext. intros k x _. simpl. f_equal. lia.
Qed.

Lemma transformRobot_run state w :
  transformRobot state w
  = (tt, with_robotParts (posed_parts state w) w,
     map (Call_poseFromState state) (seq 0 (length (robotParts_ w)))).
Proof.
  unfold transformRobot, this.
  unfold mbind at 1, Query_bind at 1.
  pose proof (transformRobot_from state w [] (robotParts_ w)) as Hloop.
  simpl in Hloop. rewrite with_robotParts_same in Hloop.
  rewrite Hloop. done.
Qed.

Lemma length_posed_parts state w :
  length (posed_parts state w) = length (robotParts_ w).
Proof. unfold posed_parts. by rewrite length_imap. Qed.
End TransformRobot.

Section DiscreteQuery.
Context `{FCL} {State : Type}.

Implicit Types (w : FCLMethodWrapper State) (state : State) (parts : list Model).

Lemma iterate_ext {L} (continue : L -> bool) (f g : nat -> L -> L) :
  (forall i l, f i l = g i l) ->
  forall count i l, iterate continue count i f l = iterate continue count i g l.
Proof.
  intros Hfg count.
  induction count as [|count IH]; intros i l; simpl; [done|].
  destruct (continue l); [|done].
  by rewrite Hfg, IH.
Qed.

Lemma environment_loop w (env : Model) count i valid :
  for_loop id count i
    (fun i valid =>
       part_i ← robotPart i;
       contacts ← fcl_collide part_i env;
       mret (valid && (contacts =? 0)%Z))
    valid w
  = (iterate id count i
       (fun i valid => valid && (collide (robotParts_ w !!! i) env =? 0)%Z) valid,
     w,
     trace (for_loop id count i
              (fun i valid =>
                 part_i ← robotPart i;
                 contacts ← fcl_collide part_i env;
                 mret (valid && (contacts =? 0)%Z))
              valid w)).
Proof.
  set (body := fun (i : nat) (valid : bool) => _ : Query State bool).
  assert (Hbody : forall i l w, final (body i l w) = w) by done.
  pose proof (for_loop_final id body Hbody count i valid w) as Hfinal.
  pose proof (for_loop_value id body w (fun i l => Hbody i l w) count i valid) as Hvalue.
  destruct (for_loop id count i body valid w) as [[v w'] calls].
  unfold final, value in *; simpl in *. by subst.
Qed.

Lemma inner_self_loop w i count j valid :
  for_loop id count j
    (fun j valid =>
       part_i ← robotPart i;
       part_j ← robotPart j;
       contacts ← fcl_collide part_i part_j;
       mret (valid && (contacts =? 0)%Z))
    valid w
  = (iterate id count j
       (fun j valid =>
          valid && (collide (robotParts_ w !!! i) (robotParts_ w !!! j) =? 0)%Z)
       valid,
     w,
     trace (for_loop id count j
              (fun j valid =>
                 part_i ← robotPart i;
                 part_j ← robotPart j;
                 contacts ← fcl_collide part_i part_j;
                 mret (valid && (contacts =? 0)%Z))
              valid w)).
Proof.
  set (body := fun (j : nat) (valid : bool) => _ : Query State bool).
  assert (Hbody : forall j l w, final (body j l w) = w) by done.
  pose proof (for_loop_final id body Hbody count j valid w) as Hfinal.
  pose proof (for_loop_value id body w (fun j l => Hbody j l w) count j valid) as Hvalue.
  destruct (for_loop id count j body valid w) as [[v w'] calls].
  unfold final, value in *; simpl in *. by subst.
Qed.

Lemma self_loop w size count i valid :
  for_loop id count i
    (fun i valid =>
       for_loop id (size - (i + 1)) (i + 1)
         (fun j valid =>
            part_i ← robotPart i;
            part_j ← robotPart j;
            contacts ← fcl_collide part_i part_j;
            mret (valid && (contacts =? 0)%Z))
         valid)
    valid w
  = (valid
     && forallb
          (fun i =>
             forallb
               (fun j =>
                  (collide (robotParts_ w !!! i) (robotParts_ w !!! j) =? 0)%Z)
               (seq (i + 1) (size - (i + 1))))
          (seq i count),
     w,
     trace (for_loop id count i
              (fun i valid =>
                 for_loop id (size - (i + 1)) (i + 1)
                   (fun j valid =>
                      part_i ← robotPart i;
                      part_j ← robotPart j;
                      contacts ← fcl_collide part_i part_j;
                      mret (valid && (contacts =? 0)%Z))
                   valid)
              valid w)).
Proof.
  set (body := fun (i : nat) (valid : bool) => _ : Query State bool).
  assert (Hbody : forall i l w, final (body i l w) = w).
  { intros i' l w'. unfold body. by rewrite inner_self_loop. }
  pose proof (for_loop_final id body Hbody count i valid w) as Hfinal.
  pose proof (for_loop_value id body w (fun i l => Hbody i l w) count i valid) as Hvalue.
  rewrite <- iterate_valid.
  rewrite (iterate_ext id (fun i l => value (body i l w))
             (fun i valid =>
                valid
                && forallb
                     (fun j =>
                        (collide (robotParts_ w !!! i) (robotParts_ w !!! j) =? 0)%Z)
                     (seq (i + 1) (size - (i + 1))))) in Hvalue.
  - destruct (for_loop id count i body valid w) as [[v w'] calls].
    unfold final, value in *; simpl in *. by subst.
  - intros i' l. unfold body. rewrite inner_self_loop. unfold value; simpl.
    apply iterate_valid.
Qed.

(** What [isValid (state)] returns and how it leaves the wrapper. *)
Lemma isValid_run state w :
  let size := length (robotParts_ w) in
  let parts := parts_tested state w in
  exists calls,
    isValid state w
    = ((if (0 <? num_tris (environment_ w))%Z
        then clear_of_environment parts (environment_ w) size else true)
       && (if selfCollision_ w then clear_of_itself parts size else true),
       with_robotParts parts w, calls).
Proof.
  intros size parts. subst size parts.
  unfold isValid, parts_tested, clear_of_itself, clear_of_environment.
  unfold mbind at 1 2, Query_bind at 1 2. unfold this. cbn beta iota.
  destruct (0 <? num_tris (environment_ w))%Z eqn:Henv.
  - unfold mbind at 1, Query_bind at 1. rewrite transformRobot_run.
    rewrite environment_loop. cbn beta iota.
    rewrite iterate_valid. rewrite andb_true_l.
    change (robotParts_ (with_robotParts (posed_parts state w) w))
      with (posed_parts state w).
    destruct (selfCollision_ w); simpl andb.
    + destruct (forallb _ (seq 0 (length (robotParts_ w)))) eqn:Hclear.
      * cbn [andb]. rewrite self_loop. cbn beta iota. eexists. reflexivity.
      * cbn [andb]. eexists. reflexivity.
    + rewrite andb_true_r. eexists. reflexivity.
  - unfold mret at 1, Query_ret at 1. cbn beta iota.
    rewrite with_robotParts_same.
    destruct (selfCollision_ w); cbn [andb].
    + rewrite self_loop. cbn beta iota. eexists. reflexivity.
    + eexists. reflexivity.
Qed.

Lemma isValid_value state w :
  value (isValid state w)
  = (if (0 <? num_tris (environment_ w))%Z
     then clear_of_environment (parts_tested state w) (environment_ w)
            (length (robotParts_ w))
     else true)
    && (if selfCollision_ w
        then clear_of_itself (parts_tested state w) (length (robotParts_ w))
        else true).
Proof. destruct (isValid_run state w) as [calls ->]. done. Qed.

Lemma isValid_final state w :
  final (isValid state w) = with_robotParts (parts_tested state w) w.
Proof. destruct (isValid_run state w) as [calls ->]. done. Qed.
End DiscreteQuery.

Section DiscreteProps.
Context `{FCL} {State : Type}.

Implicit Types (w : FCLMethodWrapper State) (state : State) (parts : list Model).

Lemma num_tris_empty (m : Model) :
  (0 <? num_tris m)%Z = false <-> num_tris m = 0%Z.
Proof. unfold num_tris. rewrite Z.ltb_ge. lia. Qed.

Lemma clear_of_environment_iff parts (env : Model) :
  clear_of_environment parts env (length parts) = true
  <-> ~ hits_environment parts env.
Proof.
  unfold clear_of_environment, hits_environment.
  rewrite forallb_forall. split.
  - intros Hall (i & p & Hi & Hhit).
    pose proof (lookup_lt_Some _ _ _ Hi) as Hlt.
    specialize (Hall i). rewrite in_seq in Hall.
    rewrite (list_lookup_total_correct _ _ _ Hi) in Hall.
    apply Hhit, Z.eqb_eq, Hall. lia.
  - intros Hnone i Hin. apply in_seq in Hin.
    apply Z.eqb_eq. destruct (decide (collide (parts !!! i) env = 0%Z)) as [|Hne]; [done|].
    exfalso. apply Hnone. exists i, (parts !!! i). split; [|done].
    apply list_lookup_lookup_total_lt. lia.
Qed.

Lemma clear_of_itself_iff parts :
  clear_of_itself parts (length parts) = true <-> ~ hits_itself parts.
Proof.
  unfold clear_of_itself, hits_itself.
  rewrite forallb_forall. split.
  - intros Hall (i & j & p_i & p_j & Hij & Hi & Hj & Hhit).
    pose proof (lookup_lt_Some _ _ _ Hi) as Hlti.
    pose proof (lookup_lt_Some _ _ _ Hj) as Hltj.
    specialize (Hall i). rewrite in_seq, forallb_forall in Hall.
    specialize (Hall ltac:(lia) j). rewrite in_seq in Hall.
    rewrite (list_lookup_total_correct _ _ _ Hi),
      (list_lookup_total_correct _ _ _ Hj) in Hall.
    apply Hhit, Z.eqb_eq, Hall. lia.
  - intros Hnone i Hi. apply in_seq in Hi.
    rewrite forallb_forall. intros j Hj. apply in_seq in Hj.
    apply Z.eqb_eq.
    destruct (decide (collide (parts !!! i) (parts !!! j) = 0%Z)) as [|Hne]; [done|].
    exfalso. apply Hnone. exists i, j, (parts !!! i), (parts !!! j).
    repeat split; [lia| | |done]; apply list_lookup_lookup_total_lt; lia.
Qed.

Lemma and_iff_compat (A B C D : Prop) :
  (A <-> C) -> (B <-> D) -> (A /\ B <-> C /\ D).
Proof. tauto. Qed.

Lemma length_parts_tested state w :
  length (parts_tested state w) = length (robotParts_ w).
Proof.
  unfold parts_tested. destruct (0 <? num_tris (environment_ w))%Z; [|done].
  apply length_posed_parts.
Qed.

(** [isValid (state)] in terms of intersections: the environment test
    reads the parts at the poses of [state]; the self-collision test
    reads [parts_tested]. *)
Lemma isValid_true_iff state w :
  value (isValid state w) = true
  <-> (num_tris (environment_ w) = 0%Z
       \/ ~ hits_environment (posed_parts state w) (environment_ w))
      /\ (selfCollision_ w = false \/ ~ hits_itself (parts_tested state w)).
Proof.
  rewrite isValid_value, andb_true_iff.
  apply and_iff_compat.
  - unfold parts_tested.
    destruct (0 <? num_tris (environment_ w))%Z eqn:Henv.
    + rewrite <- (length_posed_parts state w), clear_of_environment_iff.
      apply Z.ltb_lt in Henv. split; [tauto|]. intros [?|?]; [lia|done].
    + apply num_tris_empty in Henv. tauto.
  - destruct (selfCollision_ w).
    + rewrite <- (length_parts_tested state w), clear_of_itself_iff.
      split; [tauto|]. intros [?|?]; done.
    + tauto.
Qed.
End DiscreteProps.

Section ContinuousQuery.
Context `{FCL} {State : Type}.

Implicit Types (w : FCLMethodWrapper State) (state : State).

(** Steps through a query made of reads and collaborator calls, none of
    which writes the wrapper. *)
Ltac read_only :=
  repeat first
    [ reflexivity
    | rewrite final_bind; cbn beta
    | match goal with
      | |- context [let '(_, _) := ?x in _] => destruct x
      end ].

Lemma interpolate_final (s1 s2 : State) i w : final (interpolate s1 s2 i w) = w.
Proof. unfold interpolate. read_only. Qed.

Lemma environment_motion_body_final (s1 s2 : State) (env : Model) i
    (l : bool * BVH_REAL) w :
  final
    ((let '(valid, collisionTime) := l in
      motion1 ← interpolate s1 s2 i;
      part_i ← robotPart i;
      '(contacts, collisionTime) ←
        fcl_conservativeAdvancement part_i motion1 env InterpMotion_default
          collisionTime;
      mret (valid && (contacts =? 0)%Z, collisionTime)) w) = w.
Proof. destruct l. rewrite final_bind, interpolate_final. read_only. Qed.

Lemma self_motion_body_final (s1 s2 : State) (motion_i : InterpMotion) i j
    (l : bool * BVH_REAL) w :
  final
    ((let '(valid, collisionTime) := l in
      motion_j ← interpolate s1 s2 j;
      part_i ← robotPart i;
      part_j ← robotPart j;
      '(contacts, collisionTime) ←
        fcl_conservativeAdvancement part_i motion_i part_j motion_j collisionTime;
      mret (valid && (contacts =? 0)%Z, collisionTime)) w) = w.
Proof. destruct l. rewrite final_bind, interpolate_final. read_only. Qed.

Lemma value_this w : value (this w) = w.
Proof. done. Qed.

Lemma final_this w : final (this w) = w.
Proof. done. Qed.

Lemma value_bind_read {A B} (m : Query State A) (f : A -> Query State B) w :
  final (m w) = w -> value ((m ≫= f) w) = value (f (value (m w)) w).
Proof. intros Hm. by rewrite value_bind, Hm. Qed.

Lemma environment_motion_body_value (P : bool * BVH_REAL -> Prop)
    (s1 s2 : State) (env : Model) i (l : bool * BVH_REAL) w :
  advancement_kept P -> l.1 = true -> P l ->
  P (value
       ((let '(valid, collisionTime) := l in
         motion1 ← interpolate s1 s2 i;
         part_i ← robotPart i;
         '(contacts, collisionTime) ←
           fcl_conservativeAdvancement part_i motion1 env InterpMotion_default
             collisionTime;
         mret (valid && (contacts =? 0)%Z, collisionTime)) w)).
Proof.
  intros Hkept Hvalid Hl. destruct l as [valid toc]. simpl in Hvalid. subst valid.
  rewrite value_bind_read by apply interpolate_final.
  rewrite value_bind_read by done.
  rewrite value_bind_read by done.
  unfold fcl_conservativeAdvancement, value at 2; simpl.
  specialize (Hkept (value (robotPart i w)) (value (interpolate s1 s2 i w)) env
                InterpMotion_default toc Hl).
  by destruct (conservativeAdvancement _ _ _ _ _).
Qed.

Lemma self_motion_body_value (P : bool * BVH_REAL -> Prop)
    (s1 s2 : State) (motion_i : InterpMotion) i j (l : bool * BVH_REAL) w :
  advancement_kept P -> l.1 = true -> P l ->
  P (value
       ((let '(valid, collisionTime) := l in
         motion_j ← interpolate s1 s2 j;
         part_i ← robotPart i;
         part_j ← robotPart j;
         '(contacts, collisionTime) ←
           fcl_conservativeAdvancement part_i motion_i part_j motion_j
             collisionTime;
         mret (valid && (contacts =? 0)%Z, collisionTime)) w)).
Proof.
  intros Hkept Hvalid Hl. destruct l as [valid toc]. simpl in Hvalid. subst valid.
  rewrite value_bind_read by apply interpolate_final.
  rewrite value_bind_read by done.
  rewrite value_bind_read by done.
  rewrite value_bind_read by done.
  unfold fcl_conservativeAdvancement, value at 2; simpl.
  specialize (Hkept (value (robotPart i w)) motion_i (value (robotPart j w))
                (value (interpolate s1 s2 j w)) toc Hl).
  by destruct (conservativeAdvancement _ _ _ _ _).
Qed.

(** A property of (valid, collisionTime) that holds of (true, 1.0) and
    that every test keeps holds of what the continuous query returns. *)
Lemma isValid_motion_invariant (P : bool * BVH_REAL -> Prop) (s1 s2 : State) w :
  P (true, 1%float) -> advancement_kept P -> P (value (isValid_motion s1 s2 w)).
Proof.
  intros Hinit Hkept.
  unfold isValid_motion.
  rewrite value_bind, value_this, final_this.
  set (phase1 := if (0 <? num_tris (environment_ w))%Z then _ else _).
  assert (Hfinal1 : final (phase1 w) = w).
  { unfold phase1. destruct (0 <? num_tris (environment_ w))%Z; [|done].
    apply for_loop_final. intros i l w'. apply environment_motion_body_final. }
  assert (Hvalue1 : P (value (phase1 w))).
  { unfold phase1. destruct (0 <? num_tris (environment_ w))%Z; [|done].
    rewrite for_loop_value by (intros; apply environment_motion_body_final).
    apply iterate_invariant; [|done].
    intros i l Hvalid Hl. by apply environment_motion_body_value. }
  rewrite value_bind, Hfinal1.
  destruct (selfCollision_ w && (value (phase1 w)).1); [|done].
  assert (Hinner : forall i l w', final
    ((motion_i ← interpolate s1 s2 i;
      for_loop fst (length (robotParts_ w) - (i + 1)) (i + 1)
        (fun j '(valid, collisionTime) =>
           motion_j ← interpolate s1 s2 j;
           part_i ← robotPart i;
           part_j ← robotPart j;
           '(contacts, collisionTime) ←
             fcl_conservativeAdvancement part_i motion_i part_j motion_j
               collisionTime;
           mret (valid && (contacts =? 0)%Z, collisionTime)) l) w') = w').
  { intros i l w'. rewrite final_bind, interpolate_final.
    apply for_loop_final. intros j l' w''. apply self_motion_body_final. }
  rewrite for_loop_value by (intros; apply Hinner).
  apply iterate_invariant; [|done].
  intros i l Hvalid Hl.
  rewrite value_bind_read by apply interpolate_final.
  rewrite for_loop_value by (intros; apply self_motion_body_final).
  apply iterate_invariant; [|done].
  intros j l' Hvalid' Hl'. by apply self_motion_body_value.
Qed.
End ContinuousQuery.

(** ** Order facts on binary64 *)

Section FloatOrder.
Lemma SFcompare_antisym (x y : spec_float) :
  SFcompare y x = option_map CompOpp (SFcompare x y).
Proof.
  destruct x as [sx|sx| |sx mx ex], y as [sy|sy| |sy my ey]; simpl;
    try by (repeat match goal with b : bool |- _ => destruct b end).
  destruct sx, sy; simpl; try done.
  - rewrite (Z.compare_antisym ex ey).
    destruct (ex ?= ey)%Z; simpl; try done.
    by rewrite (Pos.compare_cont_antisym my mx Eq), CompOpp_involutive.
  - rewrite (Z.compare_antisym ex ey).
    destruct (ex ?= ey)%Z; simpl; try done.
    by rewrite (Pos.compare_cont_antisym mx my Eq).
Qed.

Lemma Pos_compare_cont_Lt_trans (a b c : positive) :
  Pos.compare_cont Eq a b = Lt -> Pos.compare_cont Eq b c = Lt ->
  Pos.compare_cont Eq a c = Lt.
Proof. exact (Pos.lt_trans a b c). Qed.

Lemma Pos_compare_cont_Gt_trans (a b c : positive) :
  Pos.compare_cont Eq a b = Gt -> Pos.compare_cont Eq b c = Gt ->
  Pos.compare_cont Eq a c = Gt.
Proof.
  intros Hab Hbc. apply Pos.compare_gt_iff.
  apply Pos.compare_gt_iff in Hab, Hbc. exact (Pos.lt_trans c b a Hbc Hab).
Qed.

Lemma Z_compare_Lt_trans (a b c : Z) :
  (a ?= b)%Z = Lt -> (b ?= c)%Z = Lt -> (a ?= c)%Z = Lt.
Proof. exact (Z.lt_trans a b c). Qed.

Lemma Z_compare_Gt_trans (a b c : Z) :
  (a ?= b)%Z = Gt -> (b ?= c)%Z = Gt -> (a ?= c)%Z = Gt.
Proof.
  intros Hab Hbc. apply Z.compare_gt_iff.
  apply Z.compare_gt_iff in Hab, Hbc. exact (Z.lt_trans c b a Hbc Hab).
Qed.

Lemma SFcompare_Lt_trans (x y z : spec_float) :
  SFcompare x y = Some Lt -> SFcompare y z = Some Lt -> SFcompare x z = Some Lt.
Proof.
  destruct x as [sx|sx| |sx mx ex], y as [sy|sy| |sy my ey],
    z as [sz|sz| |sz mz ez]; simpl;
    try by (repeat match goal with b : bool |- _ => destruct b end).
  destruct sx, sy, sz; simpl; try done.
  - destruct (ex ?= ey)%Z eqn:Hxy, (ey ?= ez)%Z eqn:Hyz; simpl; try done;
      intros Hm1 Hm2;
      try apply Z.compare_eq in Hxy; try apply Z.compare_eq in Hyz; subst;
      rewrite ?Hxy, ?Hyz, ?Z.compare_refl; try done.
    + injection Hm1 as Hm1. injection Hm2 as Hm2.
      destruct (Pos.compare_cont Eq mx my) eqn:Hc1; try done.
      destruct (Pos.compare_cont Eq my mz) eqn:Hc2; try done.
      by rewrite (Pos_compare_cont_Gt_trans _ _ _ Hc1 Hc2).
    + by rewrite (Z_compare_Gt_trans _ _ _ Hxy Hyz).
  - destruct (ex ?= ey)%Z eqn:Hxy, (ey ?= ez)%Z eqn:Hyz; simpl; try done;
      intros Hm1 Hm2;
      try apply Z.compare_eq in Hxy; try apply Z.compare_eq in Hyz; subst;
      rewrite ?Hxy, ?Hyz, ?Z.compare_refl; try done.
    + injection Hm1 as Hm1. injection Hm2 as Hm2.
      by rewrite (Pos_compare_cont_Lt_trans _ _ _ Hm1 Hm2).
    + by rewrite (Z_compare_Lt_trans _ _ _ Hxy Hyz).
Qed.

Lemma ltb_trans (x y z : float) :
  (x <? y)%float = true -> (y <? z)%float = true -> (x <? z)%float = true.
Proof.
  rewrite !ltb_spec. unfold SFltb.
  destruct (SFcompare (Prim2SF x) (Prim2SF y)) as [[]|] eqn:Hxy; try done.
  destruct (SFcompare (Prim2SF y) (Prim2SF z)) as [[]|] eqn:Hyz; try done.
  by rewrite (SFcompare_Lt_trans _ _ _ Hxy Hyz).
Qed.

(** Between two numbers (neither is a NaN), [x <= y] unless [y < x]. *)
Lemma leb_of_not_ltb (x y b : float) :
  (b <=? x)%float = true -> (b <=? y)%float = true ->
  (y <? x)%float = false -> (x <=? y)%float = true.
Proof.
  rewrite !leb_spec, ltb_spec. unfold SFleb, SFltb.
  rewrite (SFcompare_antisym (Prim2SF x) (Prim2SF y)).
  destruct (Prim2SF x) as [sx|sx| |sx mx ex], (Prim2SF y) as [sy|sy| |sy my ey];
    try (by destruct (Prim2SF b) as [sb|sb| |sb mb eb]).
  all: intros _ _; destruct (SFcompare _ _) as [[]|] eqn:Hc; simpl; try done.
  all: try (by simpl in Hc; repeat match goal with b : bool |- _ => destruct b end).
Qed.
End FloatOrder.

Section FloatMin.
Lemma SFcompare_refl_not_Lt (x : spec_float) : SFcompare x x <> Some Lt.
Proof.
  destruct x as [s|s| |s m e]; simpl; [by destruct s|by destruct s|done|].
  destruct s; by rewrite Z.compare_refl, Pos.compare_cont_refl.
Qed.

Lemma ltb_irrefl (x : float) : (x <? x)%float = false.
Proof.
  rewrite ltb_spec. unfold SFltb.
  pose proof (SFcompare_refl_not_Lt (Prim2SF x)) as Hx.
  by destruct (SFcompare (Prim2SF x) (Prim2SF x)) as [[]|].
Qed.

(** Whatever is below the running minimum at the end of the scan was
    below it at the start. *)
Lemma below_minimum (x acc : float) (ds : list float) :
  (x <? foldl keep_smaller acc ds)%float = true -> (x <? acc)%float = true.
Proof.
  revert acc. induction ds as [|d ds IH]; intros acc; simpl; [done|].
  intros Hx. apply IH in Hx. unfold keep_smaller in Hx.
  destruct (d <? acc)%float eqn:Hd; [|done].
  by apply ltb_trans with d.
Qed.

Lemma minimum_not_above (acc : float) (ds : list float) (d : float) :
  d ∈ ds -> (d <? foldl keep_smaller acc ds)%float = false.
Proof.
  revert acc. induction ds as [|d0 ds IH]; intros acc Hin; [by inversion Hin|].
  simpl. apply elem_of_cons in Hin as [->|Hin]; [|by apply IH].
  destruct (d0 <? foldl keep_smaller (keep_smaller acc d0) ds)%float eqn:Hlt; [|done].
  apply below_minimum in Hlt. unfold keep_smaller in Hlt.
  destruct (d0 <? acc)%float eqn:Hd; [|by rewrite Hd in Hlt].
  by rewrite ltb_irrefl in Hlt.
Qed.

Lemma minimum_found (acc : float) (ds : list float) :
  foldl keep_smaller acc ds = acc \/ foldl keep_smaller acc ds ∈ ds.
Proof.
  revert acc. induction ds as [|d ds IH]; intros acc; simpl; [by left|].
  destruct (IH (keep_smaller acc d)) as [Heq|Hin].
  - rewrite Heq. unfold keep_smaller. destruct (d <? acc)%float.
    + right. apply elem_of_cons. by left.
    + by left.
  - right. apply elem_of_cons. by right.
Qed.

(** The scan of [clearance] over distances that are numbers: started at
    infinity on a non-empty list, it ends on one of them, and none is
    smaller. *)
Lemma minimum_of_distances (ds : list float) :
  ds <> [] -> Forall finite_distance ds ->
  foldl keep_smaller infinity ds ∈ ds
  /\ Forall (fun d => (foldl keep_smaller infinity ds <=? d)%float = true) ds.
Proof.
  intros Hne Hfin.
  assert (Hin : foldl keep_smaller infinity ds ∈ ds).
  { destruct (minimum_found infinity ds) as [Heq|Hin]; [|done].
    destruct ds as [|d ds]; [done|].
    apply Forall_cons in Hfin as [[_ Hd] _].
    pose proof (minimum_not_above infinity (d :: ds) d) as Hd'.
    rewrite Heq, Hd in Hd'. discriminate Hd'. apply elem_of_cons. by left. }
  split; [done|].
  apply Forall_forall. intros d Hd.
  rewrite Forall_forall in Hfin.
  apply leb_of_not_ltb with 0%float.
  - by apply Hfin.
  - by apply Hfin.
  - by apply minimum_not_above.
Qed.

Lemma finite_distance_is_number (d : float) : finite_distance d -> is_number d.
Proof.
  unfold finite_distance, is_number.
  rewrite leb_spec, ltb_spec, FloatAxioms.eqb_spec.
  unfold SFleb, SFltb, SFeqb. intros [_ Hd].
  destruct (Prim2SF d) as [s|s| |s m e]; simpl in *; try done.
  - by destruct s.
  - destruct s; by rewrite Z.compare_refl, Pos.compare_cont_refl.
Qed.

(** The only number that is not below infinity is infinity. *)
Lemma number_not_below_infinity (d : float) :
  is_number d -> (d <? infinity)%float = false -> d = infinity.
Proof.
  unfold is_number. rewrite FloatAxioms.eqb_spec, ltb_spec. unfold SFeqb, SFltb.
  intros Hd Hlt. apply Prim2SF_inj.
  destruct (Prim2SF d) as [s|s| |s m e]; simpl in *; try done.
  all: by destruct s.
Qed.

Lemma leb_of_not_ltb_numbers (x y : float) :
  is_number x -> is_number y ->
  (y <? x)%float = false -> (x <=? y)%float = true.
Proof.
  unfold is_number. rewrite !FloatAxioms.eqb_spec, leb_spec, ltb_spec.
  unfold SFeqb, SFleb, SFltb.
  rewrite (SFcompare_antisym (Prim2SF x) (Prim2SF y)).
  destruct (Prim2SF x) as [sx|sx| |sx mx ex], (Prim2SF y) as [sy|sy| |sy my ey];
    try done.
  all: intros _ _; destruct (SFcompare _ _) as [[]|] eqn:Hc; simpl; try done.
  all: try (by simpl in Hc; repeat match goal with b : bool |- _ => destruct b end).
Qed.

(** The scan of [clearance] over distances none of which is a NaN:
    started at infinity on a non-empty list, it ends on one of them, and
    none is smaller. *)
Lemma minimum_of_numbers (ds : list float) :
  ds <> [] -> Forall is_number ds ->
  foldl keep_smaller infinity ds ∈ ds
  /\ Forall (fun d => (foldl keep_smaller infinity ds <=? d)%float = true) ds.
Proof.
  intros Hne Hnum.
  assert (Hin : foldl keep_smaller infinity ds ∈ ds).
  { destruct (minimum_found infinity ds) as [Heq|Hin]; [|done].
    destruct ds as [|d ds]; [done|].
    pose proof (minimum_not_above infinity (d :: ds) d) as Hd.
    rewrite Heq in Hd.
    apply Forall_cons in Hnum as [Hnum _].
    rewrite Heq, <- (number_not_below_infinity d Hnum).
    - apply elem_of_cons. by left.
    - apply Hd, elem_of_cons. by left. }
  split; [done|].
  rewrite Forall_forall in Hnum.
  apply Forall_forall. intros d Hd.
  apply leb_of_not_ltb_numbers.
  - by apply Hnum.
  - by apply Hnum.
  - by apply minimum_not_above.
Qed.
End FloatMin.

Section Clearance.
Context `{FCL} {State : Type}.

Implicit Types (w : FCLMethodWrapper State) (state : State).

Lemma iterate_foldl {A L} `{Inhabited A} (f : L -> A -> L) (before todo : list A) acc :
  iterate (fun _ => true) (length todo) (length before)
    (fun i acc => f acc ((before ++ todo) !!! i)) acc
  = foldl f acc todo.
Proof.
  revert before acc.
  induction todo as [|x todo IH]; intros before acc; simpl; [done|].
  specialize (IH (before ++ [x]) (f acc x)).
  rewrite <- app_assoc, length_app in IH. simpl in IH.
  replace (length before + 1)%nat with (S (length before)) in IH by lia.
  rewrite <- IH. f_equal.
  rewrite list_lookup_total_middle; done.
Qed.

Lemma distance_loop w (env : Model) count i dist :
  for_loop (fun _ => true) count i
    (fun i dist =>
       part_i ← robotPart i;
       min_distance ← fcl_distance env part_i;
       mret (if (min_distance <? dist)%float then min_distance else dist))
    dist w
  = (iterate (fun _ => true) count i
       (fun i dist => keep_smaller dist (distance env (robotParts_ w !!! i))) dist,
     w,
     trace (for_loop (fun _ => true) count i
              (fun i dist =>
                 part_i ← robotPart i;
                 min_distance ← fcl_distance env part_i;
                 mret (if (min_distance <? dist)%float then min_distance else dist))
              dist w)).
Proof.
  set (body := fun (i : nat) (dist : float) => _ : Query State float).
  assert (Hbody : forall i l w, final (body i l w) = w) by done.
  pose proof (for_loop_final (fun _ => true) body Hbody count i dist w) as Hfinal.
  pose proof (for_loop_value (fun _ => true) body w (fun i l => Hbody i l w)
                count i dist) as Hvalue.
  destruct (for_loop (fun _ => true) count i body dist w) as [[v w'] calls].
  unfold final, value in *; simpl in *. by subst.
Qed.

Lemma clearance_run state w :
  exists calls,
    clearance state w
    = (if (0 <? num_tris (environment_ w))%Z
       then foldl keep_smaller infinity
              (map (distance (environment_ w)) (posed_parts state w))
       else infinity,
       with_robotParts (parts_tested state w) w, calls).
Proof.
  unfold clearance, parts_tested.
  unfold mbind at 1, Query_bind at 1. unfold this. cbn beta iota.
  destruct (0 <? num_tris (environment_ w))%Z eqn:Henv.
  - unfold mbind at 1, Query_bind at 1. rewrite transformRobot_run. cbn beta iota.
    rewrite distance_loop. cbn beta iota.
    eexists. f_equal. f_equal.
    change (robotParts_ (with_robotParts (posed_parts state w) w))
      with (posed_parts state w).
    rewrite <- (length_posed_parts state w).
    pose proof (iterate_foldl
                  (fun dist part => keep_smaller dist (distance (environment_ w) part))
                  [] (posed_parts state w) infinity) as Hfold.
    simpl in Hfold. rewrite Hfold. by rewrite foldl_fmap.
  - rewrite with_robotParts_same. eexists. reflexivity.
Qed.

Lemma clearance_value state w :
  value (clearance state w)
  = if (0 <? num_tris (environment_ w))%Z
    then foldl keep_smaller infinity
           (map (distance (environment_ w)) (posed_parts state w))
    else infinity.
Proof. destruct (clearance_run state w) as [calls ->]. done. Qed.
End Clearance.

Section ConstructionFacts.
Context `{Assimp} `{Build}.

(** On [3 * count] points from point [3 * first] on, the triangle loop
    pushes the triangles [first .. first + count - 1], whatever fuel it
    has beyond [count]. *)
Lemma push_triangles_from_whole (count first fuel : nat) (triangles : list Triangle) :
  (count <= fuel)%nat ->
  push_triangles_from fuel (3 * first) (3 * (first + count)) triangles
  = triangles
    ++ map (fun k => mkTriangle (3 * k) (3 * k + 1) (3 * k + 2)) (seq first count).
Proof.
  revert first fuel triangles.
  induction count as [|count IH]; intros first fuel triangles Hfuel.
  - cbn [seq map]. rewrite app_nil_r.
    destruct fuel as [|fuel]; cbn [push_triangles_from]; [done|].
    replace (3 * first <? 3 * (first + 0))%nat with false; [done|].
    symmetry. apply Nat.ltb_ge. lia.
  - destruct fuel as [|fuel]; [lia|]. cbn [push_triangles_from].
    replace (3 * first <? 3 * (first + S count))%nat with true
      by (symmetry; apply Nat.ltb_lt; lia).
    replace (3 * first + 3)%nat with (3 * S first)%nat by lia.
    replace (3 * (first + S count))%nat with (3 * (S first + count))%nat by lia.
    rewrite IH by lia. cbn [seq map]. by rewrite <- app_assoc.
Qed.

Lemma push_triangles_whole (count : nat) (triangles : list Triangle) :
  push_triangles (3 * count) triangles
  = triangles
    ++ map (fun k => mkTriangle (3 * k) (3 * k + 1) (3 * k + 2)) (seq 0 count).
Proof.
  unfold push_triangles.
  apply (push_triangles_from_whole count 0 (3 * count) triangles). lia.
Qed.

Lemma length_shifted (center : list aiVector3D) (i : nat) (t : list aiVector3D) :
  length (match center !! i with
          | Some c => map (fun p => aiVector3D_sub p c) t
          | None => t
          end) = length t.
Proof. destruct (center !! i); [apply length_map|done]. Qed.

(** An [assert] on a condition that holds lets control through in either
    build. *)
Lemma assert_passes_holds (e : bool) : e = true -> assert_passes e = true.
Proof. intros ->. unfold assert_passes. apply orb_true_r. Qed.

(** In a build with assertions an [assert] lets control through exactly
    when its condition holds; in a build with [NDEBUG] it always does. *)
Lemma assert_passes_checked (e : bool) : NDEBUG = false -> assert_passes e = e.
Proof. unfold assert_passes. by intros ->. Qed.

Lemma assert_passes_unchecked (e : bool) : NDEBUG = true -> assert_passes e = true.
Proof. unfold assert_passes. by intros ->. Qed.

Lemma getFCLModelFromScene_from_malformed scenes :
  NDEBUG = false ->
  Exists malformed scenes ->
  forall i center pts triangles,
    getFCLModelFromScene_from i scenes center pts triangles = None.
Proof.
  intros Hchecked.
  induction scenes as [|source scenes IH]; intros Hbad i center pts triangles.
  - by apply Exists_nil in Hbad.
  - apply Exists_cons in Hbad. cbn [getFCLModelFromScene_from].
    destruct source as [scene|]; cbn zeta.
    + rewrite length_shifted, assert_passes_checked by done.
      destruct (_ =? _)%nat eqn:Hmod; [|done].
      apply Nat.eqb_eq in Hmod.
      destruct Hbad as [(scene' & Heq & Hne)|Hbad]; [by simplify_eq|].
      by apply IH.
    + destruct Hbad as [(scene' & Heq & Hne)|Hbad]; [done|].
      by apply IH.
Qed.

Lemma getFCLModelFromScene_from_null scenes :
  Forall (fun source => source = None) scenes ->
  forall i center pts triangles,
    getFCLModelFromScene_from i scenes center pts triangles = Some (pts, triangles).
Proof.
  induction 1 as [|source scenes -> _ IH]; intros i center pts triangles;
    cbn [getFCLModelFromScene_from]; [done|].
  apply IH.
Qed.

Lemma getFCLModelFromScene1_well_formed source center :
  well_formed source ->
  exists tri_model,
    getFCLModelFromScene1 source center = Some tri_model
    /\ (source = None -> tri_model = ([], [])).
Proof.
  intros Hok. unfold getFCLModelFromScene1, getFCLModelFromScene.
  cbn [getFCLModelFromScene_from].
  destruct source as [scene|]; cbn zeta; [|by eexists].
  rewrite length_shifted.
  rewrite assert_passes_holds by (by apply Nat.eqb_eq, Hok).
  by eexists.
Qed.

Lemma configure_robot_from_malformed pieces :
  NDEBUG = false ->
  Exists malformed pieces ->
  forall rbt shifts robotParts,
    configure_robot_from rbt pieces shifts robotParts = None.
Proof.
  intros Hchecked.
  induction pieces as [|piece pieces IH]; intros Hbad rbt shifts robotParts.
  - by apply Exists_nil in Hbad.
  - apply Exists_cons in Hbad. cbn [configure_robot_from]. cbn zeta.
    destruct (getFCLModelFromScene1 piece _) as [tri_model|] eqn:Hpiece; [|done].
    destruct Hbad as [Hbad|Hbad]; [|by apply IH].
    unfold getFCLModelFromScene1, getFCLModelFromScene in Hpiece.
    rewrite getFCLModelFromScene_from_malformed in Hpiece; [done|done|].
    apply Exists_cons. by left.
Qed.

Lemma configure_robot_from_well_formed pieces :
  Forall well_formed pieces ->
  forall rbt shifts robotParts,
    exists parts,
      configure_robot_from rbt pieces shifts robotParts = Some (robotParts ++ parts)
      /\ Forall2 empty_if_null pieces parts.
Proof.
  induction 1 as [|piece pieces Hok _ IH]; intros rbt shifts robotParts;
    cbn [configure_robot_from]; cbn zeta.
  - exists []. by rewrite app_nil_r.
  - destruct (getFCLModelFromScene1_well_formed piece
                (default aiVector3D_zero (shifts !! rbt)) Hok)
      as (tri_model & -> & Hnull).
    destruct (IH (S rbt) shifts (robotParts ++ [build_Model tri_model]))
      as (parts & -> & Hparts).
    exists (build_Model tri_model :: parts). split.
    + by rewrite <- app_assoc.
    + apply Forall2_cons. split; [|done].
      intros Hpiece. by rewrite (Hnull Hpiece).
Qed.
End ConstructionFacts.

Section SmallRobot.
Context `{FCL} {State : Type}.

Implicit Types (w : FCLMethodWrapper State) (state : State).

Lemma clear_of_itself_small (parts : list Model) (size : nat) :
  (size <= 1)%nat -> clear_of_itself parts size = true.
Proof.
  intros Hsize. unfold clear_of_itself.
  destruct size as [|[|size]]; [done|done|lia].
Qed.

Lemma value_ret {A} (a : A) w : value ((mret a : Query State A) w) = a.
Proof. done. Qed.

Lemma final_ret {A} (a : A) w : final ((mret a : Query State A) w) = w.
Proof. done. Qed.

Lemma interpolate_value (s1 s2 : State) i w :
  value (interpolate s1 s2 i w) = motion_between w s1 s2 i.
Proof.
  unfold interpolate, motion_between, poseFromState, value, mbind, Query_bind.
  destruct (poseFromStateCallback_ w (extractState_ w s1 i)) as [trans1 quat1].
  by destruct (poseFromStateCallback_ w (extractState_ w s2 i)) as [trans2 quat2].
Qed.

(** With at most one part, the self-collision loops of the continuous
    query test nothing: they return the loop variables they are given. *)
Lemma self_motion_loop_small (s1 s2 : State) w (size : nat) (r : bool * BVH_REAL) :
  (size <= 1)%nat ->
  value
    (for_loop fst size 0
       (fun i r =>
          motion_i ← interpolate s1 s2 i;
          for_loop fst (size - (i + 1)) (i + 1)
            (fun j '(valid, collisionTime) =>
               motion_j ← interpolate s1 s2 j;
               part_i ← robotPart i;
               part_j ← robotPart j;
               '(contacts, collisionTime) ←
                 fcl_conservativeAdvancement part_i motion_i part_j motion_j
                   collisionTime;
               mret (valid && (contacts =? 0)%Z, collisionTime))
            r)
       r w) = r.
Proof.
  intros Hsize. destruct size as [|[|size]]; [done| |lia].
  cbn [for_loop]. destruct (fst r); [|done].
  rewrite value_bind. cbn [for_loop].
  rewrite value_bind. done.
Qed.

(** The environment loop of the continuous query does not read the
    self-collision flag. *)
Lemma environment_motion_loop_flag (s1 s2 : State) w b (size : nat)
    (r : bool * BVH_REAL) :
  value
    (for_loop fst size 0
       (fun i '(valid, collisionTime) =>
          motion1 ← interpolate s1 s2 i;
          part_i ← robotPart i;
          '(contacts, collisionTime) ←
            fcl_conservativeAdvancement part_i motion1 (environment_ w)
              InterpMotion_default collisionTime;
          mret (valid && (contacts =? 0)%Z, collisionTime))
       r (with_selfCollision b w))
  = value
      (for_loop fst size 0
         (fun i '(valid, collisionTime) =>
            motion1 ← interpolate s1 s2 i;
            part_i ← robotPart i;
            '(contacts, collisionTime) ←
              fcl_conservativeAdvancement part_i motion1 (environment_ w)
                InterpMotion_default collisionTime;
            mret (valid && (contacts =? 0)%Z, collisionTime))
         r w).
Proof.
  rewrite !for_loop_value by (intros; apply environment_motion_body_final).
  apply iterate_ext. intros i [valid toc].
  rewrite !value_bind, !interpolate_final, !interpolate_value.
  unfold fcl_conservativeAdvancement, robotPart, value, final; cbn [fst snd].
  change (robotParts_ (with_selfCollision b w)) with (robotParts_ w).
  change (motion_between (with_selfCollision b w)) with (motion_between w).
  by destruct (conservativeAdvancement _ _ _ _ _).
Qed.

Lemma isValid_motion_small (s1 s2 : State) w b :
  (length (robotParts_ w) <= 1)%nat ->
  value (isValid_motion s1 s2 (with_selfCollision b w))
  = value (isValid_motion s1 s2 w).
Proof.
  intros Hsize.
  unfold isValid_motion.
  rewrite !value_bind, !value_this, !final_this.
  change (environment_ (with_selfCollision b w)) with (environment_ w).
  change (robotParts_ (with_selfCollision b w)) with (robotParts_ w).
  change (selfCollision_ (with_selfCollision b w)) with b.
  destruct (0 <? num_tris (environment_ w))%Z.
  - rewrite environment_motion_loop_flag.
    rewrite !for_loop_final by (intros; apply environment_motion_body_final).
    set (r := value (for_loop fst _ _ _ _ w)).
    destruct (b && r.1), (selfCollision_ w && r.1);
      rewrite ?self_motion_loop_small; done.
  - rewrite !value_ret, !final_ret.
    destruct b, (selfCollision_ w); cbn [andb fst];
      rewrite ?self_motion_loop_small by done.
    all: done.
Qed.
End SmallRobot.

(** ** Discrete queries in sequence *)

Section Sequence.
Context `{FCL} {State : Type}.

Implicit Types (w : FCLMethodWrapper State) (state : State).

Lemma pose_part_again w state state' i (part : Model) :
  pose_part w state' i (pose_part w state i part) = pose_part w state' i part.
Proof.
  unfold pose_part.
  destruct (poseFromStateCallback_ w (extractState_ w state i)) as [t q].
  by destruct (poseFromStateCallback_ w (extractState_ w state' i)) as [t' q'].
Qed.

(** Posing the parts overwrites the poses they had. *)
Lemma posed_parts_again state state' w :
  posed_parts state' (with_robotParts (posed_parts state w) w) = posed_parts state' w.
Proof.
  unfold posed_parts. cbn [robotParts_ with_robotParts].
  apply list_eq. intros i. rewrite !list_lookup_imap.
  destruct (robotParts_ w !! i) as [part|]; [|done]. simpl.
  f_equal. exact (pose_part_again w state state' i part).
Qed.

(** What a discrete query returns does not depend on the poses an earlier
    discrete query left on the parts, and the poses it leaves do not
    either. *)
Lemma isValid_after_isValid state state' w :
  value (isValid state' (final (isValid state w))) = value (isValid state' w)
  /\ final (isValid state' (final (isValid state w))) = final (isValid state' w).
Proof.
  rewrite !isValid_value, !isValid_final. unfold parts_tested.
  cbn [environment_ selfCollision_ robotParts_ with_robotParts].
  destruct (0 <? num_tris (environment_ w))%Z.
  - rewrite !posed_parts_again, ?length_posed_parts. split; reflexivity.
  - split; reflexivity.
Qed.

(** Discrete queries run one after the other return what each returns when
    run alone on the wrapper as it was before the first. *)
Lemma isValid_each_alone (states : list State) w :
  forall state0,
    value (isValid_each states (final (isValid state0 w)))
    = map (fun state => value (isValid state w)) states.
Proof.
  induction states as [|state states IH]; intros state0; [done|].
  cbn [isValid_each map].
  rewrite value_bind, value_bind.
  destruct (isValid_after_isValid state0 state w) as [Hvalue Hfinal].
  rewrite value_ret, Hvalue. f_equal.
  specialize (IH state). by rewrite Hfinal, IH.
Qed.

(** X12.  Discrete queries run one after the other on one wrapper
    return what each returns when it is run alone on the wrapper as it
    was before the first. *)
Lemma isValid_each_isolated (states : list State) w :
  value (isValid_each states w) = map (fun state => value (isValid state w)) states.
Proof.
  destruct states as [|state states]; [done|].
  cbn [isValid_each map].
  rewrite value_bind, value_bind, value_ret. f_equal.
  apply isValid_each_alone.
Qed.
End Sequence.


(** ** The properties of the specification *)

Section Claims.
Context `{FCL} `{Assimp} `{Build} {State : Type}.

Implicit Types (w : FCLMethodWrapper State) (state : State).

(** [transformRobot] calls the pose callback once per part, in order. *)
Lemma transformRobot_calls state w :
  trace (transformRobot state w)
  = map (Call_poseFromState state) (seq 0 (length (robotParts_ w))).
Proof. by rewrite transformRobot_run. Qed.

(** X8.  With a non-empty environment, [isValid (state)] holds exactly
    when no part at its pose in [state] intersects the environment and,
    if self-collision is checked, no two parts at these poses
    intersect. *)
Lemma isValid_nonempty_environment state w :
  (0 < num_tris (environment_ w))%Z ->
  value (isValid state w) = true
  <-> ~ hits_environment (posed_parts state w) (environment_ w)
      /\ (selfCollision_ w = false \/ ~ hits_itself (posed_parts state w)).
Proof.
  intros Henv. rewrite isValid_true_iff. unfold parts_tested.
  apply Z.ltb_lt in Henv as Henv'. rewrite Henv'.
  split; [|tauto]. intros [[Hempty|Hclear] Hself]; [lia|done].
Qed.

(** X9.  Without self-collision checking, [isValid (state)] holds
    exactly when the environment is empty or no part at its pose in
    [state] intersects it. *)
Lemma isValid_without_selfCollision state w :
  selfCollision_ w = false ->
  value (isValid state w) = true
  <-> num_tris (environment_ w) = 0%Z
      \/ ~ hits_environment (posed_parts state w) (environment_ w).
Proof. intros Hself. rewrite isValid_true_iff. split; [tauto|]. intros; split; auto. Qed.

(** C2.  With an environment model of zero triangles and self-collision
    checking disabled, [isValid (state)] returns true for every state,
    leaves the wrapper as it was and calls no collaborator: no pose is
    fetched and no intersection test is run. *)
Theorem isValid_empty_environment state w :
  num_tris (environment_ w) = 0%Z -> selfCollision_ w = false ->
  isValid state w = (true, w, []).
Proof.
  intros Henv Hself. apply num_tris_empty in Henv.
  unfold isValid, mbind, Query_bind, this. cbn beta iota.
  by rewrite Henv, Hself.
Qed.

(** C3.  If the continuous query returns true, the time of contact it
    leaves is 1.0, provided a conservative-advancement call that reports
    no contact leaves a time of 1.0 at 1.0. *)
Theorem isValid_motion_true_time (s1 s2 : State) w :
  no_contact_keeps_time ->
  (value (isValid_motion s1 s2 w)).1 = true ->
  (value (isValid_motion s1 s2 w)).2 = 1%float.
Proof.
  intros Hkeeps.
  apply (isValid_motion_invariant (fun r => r.1 = true -> r.2 = 1%float)); [done|].
  intros o1 motion1 o2 motion2 toc Htoc Hzero. simpl in *.
  rewrite (Htoc eq_refl) in *.
  apply Hkeeps. by apply Z.eqb_eq.
Qed.

(** C4.  If the continuous query returns false, the time of contact it
    leaves lies in [0, 1), provided a conservative-advancement call that
    reports a contact leaves a time in [0, 1). *)
Theorem isValid_motion_false_time (s1 s2 : State) w :
  contact_time_in_range ->
  (value (isValid_motion s1 s2 w)).1 = false ->
  time_in_range (value (isValid_motion s1 s2 w)).2.
Proof.
  intros Hrange.
  apply (isValid_motion_invariant (fun r => r.1 = false -> time_in_range r.2)); [done|].
  intros o1 motion1 o2 motion2 toc _ Hcontact. simpl in *.
  apply Hrange. by apply Z.eqb_neq.
Qed.

(** C7.  For a robot of at most one part, the self-collision flag changes
    neither what the discrete query returns, nor the poses it leaves on
    the parts, nor what the continuous query returns (validity and time
    of contact). *)
Theorem selfCollision_irrelevant_for_small_robot (state s1 s2 : State) w :
  (length (robotParts_ w) <= 1)%nat ->
  value (isValid state (with_selfCollision true w))
  = value (isValid state (with_selfCollision false w))
  /\ robotParts_ (final (isValid state (with_selfCollision true w)))
     = robotParts_ (final (isValid state (with_selfCollision false w)))
  /\ value (isValid_motion s1 s2 (with_selfCollision true w))
     = value (isValid_motion s1 s2 (with_selfCollision false w)).
Proof.
  intros Hsize. repeat split.
  - rewrite !isValid_value.
    change (robotParts_ (with_selfCollision true w)) with (robotParts_ w).
    change (robotParts_ (with_selfCollision false w)) with (robotParts_ w).
    cbn [selfCollision_ with_selfCollision].
    rewrite clear_of_itself_small by done.
    done.
  - by rewrite !isValid_final.
  - by rewrite !isValid_motion_small.
Qed.

(** C8.  The continuous query leaves the wrapper as it found it: it
    writes no pose, nor anything else, on the robot-part models or the
    environment model. *)
Theorem isValid_motion_writes_nothing (s1 s2 : State) w :
  final (isValid_motion s1 s2 w) = w.
Proof.
  unfold isValid_motion.
  rewrite final_bind, value_this, final_this.
  rewrite final_bind.
  set (phase1 := if (0 <? num_tris (environment_ w))%Z then _ else _).
  assert (Hphase1 : final (phase1 w) = w).
  { unfold phase1. destruct (0 <? num_tris (environment_ w))%Z; [|done].
    apply for_loop_final. intros i l w'. apply environment_motion_body_final. }
  rewrite Hphase1.
  destruct (selfCollision_ w && (value (phase1 w)).1); [|done].
  apply for_loop_final. intros i l w'.
  rewrite final_bind, interpolate_final.
  apply for_loop_final. intros j l' w''. apply self_motion_body_final.
Qed.

Lemma isValid_motion_empty_environment (s1 s2 : State) w :
  num_tris (environment_ w) = 0%Z -> selfCollision_ w = false ->
  isValid_motion s1 s2 w = ((true, 1%float), w, []).
Proof.
  intros Henv Hself. apply num_tris_empty in Henv.
  unfold isValid_motion, mbind, Query_bind, this. cbn beta iota.
  by rewrite Henv, Hself.
Qed.

Lemma clearance_empty_environment state w :
  num_tris (environment_ w) = 0%Z -> clearance state w = (infinity, w, []).
Proof.
  intros Henv. apply num_tris_empty in Henv.
  unfold clearance, mbind, Query_bind, this. cbn beta iota.
  by rewrite Henv.
Qed.

(** C5, as the code has it.  [clearance (state)] returns positive
    infinity when the environment model has zero triangles or the robot
    has no part.  When the environment model is non-empty and the robot
    has at least one part: if every part-to-environment distance the
    distance routine reports, for the parts at their poses in [state],
    is a number (none is a NaN), [clearance] returns the minimum of
    these distances over the parts, one of them and not above any of
    them; if every one of them is moreover finite and not negative, the
    result is a finite non-negative number, and so not positive
    infinity. *)
Theorem clearance_is_minimum_distance state w :
  (num_tris (environment_ w) = 0%Z \/ robotParts_ w = [] ->
   value (clearance state w) = infinity)
  /\ (num_tris (environment_ w) <> 0%Z -> robotParts_ w <> [] ->
      Forall is_number
        (map (distance (environment_ w)) (posed_parts state w)) ->
      value (clearance state w)
        ∈ map (distance (environment_ w)) (posed_parts state w)
      /\ Forall (fun d => (value (clearance state w) <=? d)%float = true)
           (map (distance (environment_ w)) (posed_parts state w)))
  /\ (num_tris (environment_ w) <> 0%Z -> robotParts_ w <> [] ->
      Forall finite_distance
        (map (distance (environment_ w)) (posed_parts state w)) ->
      finite_distance (value (clearance state w))
      /\ value (clearance state w) <> infinity).
Proof.
  rewrite clearance_value.
  assert (Hds : robotParts_ w <> [] ->
                map (distance (environment_ w)) (posed_parts state w) <> []).
  { intros Hsome Hnil. apply Hsome, length_zero_iff_nil.
    by rewrite <- (length_posed_parts state w),
      <- (length_map (distance (environment_ w))), Hnil. }
  split; [|split].
  - intros [Henv|Hnone].
    + apply num_tris_empty in Henv. by rewrite Henv.
    + destruct (0 <? num_tris (environment_ w))%Z; [|done].
      unfold posed_parts. by rewrite Hnone.
  - intros Henv Hsome Hnum.
    destruct (0 <? num_tris (environment_ w))%Z eqn:Htris;
      [|by apply num_tris_empty in Htris].
    apply minimum_of_numbers; [by apply Hds|done].
  - intros Henv Hsome Hfinite.
    destruct (0 <? num_tris (environment_ w))%Z eqn:Htris;
      [|by apply num_tris_empty in Htris].
    destruct (minimum_of_distances _ (Hds Hsome) Hfinite) as [Hin _].
    assert (Hmin : finite_distance
                     (foldl keep_smaller infinity
                        (map (distance (environment_ w)) (posed_parts state w)))).
    { rewrite Forall_forall in Hfinite. by apply Hfinite. }
    split; [done|].
    intros Hinf. destruct Hmin as [_ Hlt]. by rewrite Hinf in Hlt.
Qed.

(** C6, as the code has it.  In a build with assertions ([NDEBUG] not
    defined), if some mesh source of the geometry specification, of the
    environment or of a robot part, is there and has a point count that
    is not a multiple of 3, the construction of the wrapper does not
    return: the assertion stops it, and no wrapper exists to query. *)
Theorem construction_stops_on_malformed_mesh (geom : GeometrySpecification)
    (se : State -> nat -> State) (selfCollision : bool)
    (poseCallback : State -> Vec3f * SimpleQuaternion) :
  NDEBUG = false ->
  Exists malformed (obstacles geom) \/ Exists malformed (robot geom) ->
  FCLMethodWrapper_new geom se selfCollision poseCallback = None.
Proof.
  intros Hchecked [Hbad|Hbad];
    unfold FCLMethodWrapper_new, configure, getFCLModelFromScene.
  - by rewrite getFCLModelFromScene_from_malformed.
  - destruct (getFCLModelFromScene_from _ _ _ _ _); [|done].
    by rewrite configure_robot_from_malformed.
Qed.

(** C10.  A null mesh source is skipped: the conversion goes on to the
    next source with the points and triangles it had, and the conversion
    of a single null source gives no point and no triangle whatever the
    shift.  When every obstacle source is null (and every robot source
    is null or well formed) the construction returns a wrapper whose
    environment model is empty and whose model for a null robot source
    is empty; on it [clearance] returns infinity and, self-collision
    apart, both validity queries return true. *)
Theorem null_mesh_sources_are_skipped (geom : GeometrySpecification)
    (se : State -> nat -> State) (selfCollision : bool)
    (poseCallback : State -> Vec3f * SimpleQuaternion) :
  Forall (fun source => source = None) (obstacles geom) ->
  Forall well_formed (robot geom) ->
  (forall i rest center pts triangles,
      getFCLModelFromScene_from i (None :: rest) center pts triangles
      = getFCLModelFromScene_from (S i) rest center pts triangles)
  /\ (forall center, getFCLModelFromScene1 None center = Some ([], []))
  /\ exists w,
      FCLMethodWrapper_new geom se selfCollision poseCallback = Some w
      /\ vertices (environment_ w) = []
      /\ num_tris (environment_ w) = 0%Z
      /\ Forall2 empty_if_null (robot geom) (robotParts_ w)
      /\ forall state s1 s2,
          value (clearance state w) = infinity
          /\ value (isValid state (with_selfCollision false w)) = true
          /\ value (isValid_motion s1 s2 (with_selfCollision false w))
             = (true, 1%float).
Proof.
  intros Hnull Hrobot. split; [done|]. split; [done|].
  unfold FCLMethodWrapper_new, configure, getFCLModelFromScene.
  rewrite getFCLModelFromScene_from_null by done.
  destruct (configure_robot_from_well_formed (robot geom) Hrobot 0 (robotShift geom) [])
    as (parts & Hparts & Hempty).
  cbn [robotParts_]. rewrite Hparts.
  eexists. split; [done|]. cbn [environment_ robotParts_ build_Model fst snd app].
  split; [done|]. split; [done|]. split; [done|].
  intros state s1 s2. split; [|split].
  - by rewrite clearance_empty_environment.
  - reflexivity.
  - by rewrite isValid_motion_empty_environment.
Qed.
End Claims.

(** ** Further properties of the code *)

Section ConstructionShape.
Context `{Assimp} `{Build}.

Lemma well_formed_or_malformed (source : option aiScene) :
  well_formed source \/ malformed source.
Proof.
  destruct source as [scene|].
  - destruct (decide (length (extractTriangles scene) mod 3 = 0)%nat) as [Hmod|Hmod].
    + left. intros scene' Heq. by simplify_eq.
    + right. by exists scene.
  - left. by intros scene' Heq.
Qed.

Lemma all_well_formed_or_malformed (sources : list (option aiScene)) :
  Forall well_formed sources \/ Exists malformed sources.
Proof.
  induction sources as [|source sources IH]; [by left|].
  destruct (well_formed_or_malformed source) as [Hok|Hbad].
  - destruct IH as [IH|IH].
    + left. by constructor.
    + right. by apply Exists_cons_tl.
  - right. by apply Exists_cons_hd.
Qed.

Lemma well_formed_not_malformed (sources : list (option aiScene)) :
  Forall well_formed sources -> ~ Exists malformed sources.
Proof.
  intros Hok Hbad. apply Exists_exists in Hbad as (source & Hin & scene & -> & Hmod).
  rewrite Forall_forall in Hok. by apply Hmod, (Hok _ Hin scene).
Qed.

Lemma length_shifted_points center i scene :
  length (shifted_points center i scene) = length (extractTriangles scene).
Proof. unfold shifted_points. destruct (center !! i); [apply length_map|done]. Qed.

(** The conversion loop from source [i] on, over well-formed sources: it
    returns, with the points of each source appended in order and the
    triangles of each source appended in order. *)
Lemma getFCLModelFromScene_from_shape scenes :
  Forall well_formed scenes ->
  forall i center pts triangles,
    getFCLModelFromScene_from i scenes center pts triangles
    = Some (pts ++ concat (imap (fun k => source_points center (i + k)) scenes),
            triangles ++ concat (map source_triangles scenes)).
Proof.
  induction 1 as [|source scenes Hok _ IH]; intros i center pts triangles.
  - cbn. by rewrite !app_nil_r.
  - cbn [getFCLModelFromScene_from imap map concat].
    destruct source as [scene|]; cbn zeta.
    + fold (shifted_points center i scene).
      rewrite length_shifted_points.
      specialize (Hok scene eq_refl).
      rewrite assert_passes_holds by (by apply Nat.eqb_eq).
      rewrite IH. rewrite <- !app_assoc, Nat.add_0_r.
      apply Nat.Div0.div_exact in Hok. rewrite Hok at 1. rewrite push_triangles_whole.
      rewrite <- app_assoc. cbn [source_points source_triangles].
      fold (consecutive_triangles (length (extractTriangles scene) / 3)).
      f_equal. f_equal.
      f_equal. f_equal. f_equal.
      apply imap_ext. intros k x _. cbn. f_equal. lia.
    + rewrite IH. cbn [source_points source_triangles app].
      f_equal. f_equal. f_equal. f_equal.
      apply imap_ext. intros k x _. cbn. f_equal. lia.
Qed.

Lemma consecutive_triangles_within (count : nat) :
  Forall (triangle_within (3 * count)) (consecutive_triangles count).
Proof.
  unfold consecutive_triangles. apply Forall_forall. intros t Ht.
  apply list_elem_of_fmap in Ht as (k & -> & Hk).
  apply elem_of_seq in Hk. unfold triangle_within; simpl. lia.
Qed.

Lemma triangle_within_le (bound bound' : nat) (t : Triangle) :
  (bound <= bound')%nat -> triangle_within bound t -> triangle_within bound' t.
Proof. unfold triangle_within. intros Hle (? & ? & ?). repeat split; [done|done|lia]. Qed.

Lemma source_counts center i (source : option aiScene) :
  well_formed source ->
  (3 * length (source_triangles source))%nat = length (source_points center i source)
  /\ Forall (triangle_within (length (source_points center i source)))
       (source_triangles source).
Proof.
  intros Hok. destruct source as [scene|]; [|by split].
  specialize (Hok scene eq_refl). apply Nat.Div0.div_exact in Hok.
  cbn [source_triangles source_points].
  rewrite length_map, length_shifted_points.
  split.
  - unfold consecutive_triangles. rewrite length_map, length_seq. lia.
  - rewrite Hok at 1. apply consecutive_triangles_within.
Qed.

Lemma sources_counts center (scenes : list (option aiScene)) :
  Forall well_formed scenes ->
  forall i,
    (3 * length (concat (map source_triangles scenes)))%nat
    = length (concat (imap (fun k => source_points center (i + k)) scenes))
    /\ Forall
         (triangle_within
            (length (concat (imap (fun k => source_points center (i + k)) scenes))))
         (concat (map source_triangles scenes)).
Proof.
  induction 1 as [|source scenes Hok _ IH]; intros i; [by split|].
  cbn [map imap concat]. rewrite !length_app.
  destruct (source_counts center (i + 0) source Hok) as [Hcount Hwithin].
  destruct (IH (S i)) as [Hcounts Hwithins].
  assert (Hext : imap ((fun k => source_points center (i + k)) ∘ S) scenes
                 = imap (fun k => source_points center (S i + k)) scenes).
  { apply imap_ext. intros k x _. cbn. f_equal. lia. }
  rewrite Hext. split; [lia|].
  apply Forall_app. split.
  - eapply Forall_impl; [exact Hwithin|]. intros t. apply triangle_within_le. lia.
  - eapply Forall_impl; [exact Hwithins|]. intros t. apply triangle_within_le. lia.
Qed.

Lemma getFCLModelFromScene1_shape (piece : option aiScene) (shift : aiVector3D) :
  well_formed piece ->
  getFCLModelFromScene1 piece shift
  = Some (source_points [shift] 0 piece, source_triangles piece).
Proof.
  intros Hok. unfold getFCLModelFromScene1, getFCLModelFromScene.
  rewrite getFCLModelFromScene_from_shape by (by constructor).
  cbn [imap map concat app]. by rewrite !app_nil_r.
Qed.

(** The model [configure] builds for robot piece [rbt]. *)
Lemma configure_robot_from_shape (pieces : list (option aiScene)) :
  Forall well_formed pieces ->
  forall rbt shifts robotParts,
    configure_robot_from rbt pieces shifts robotParts
    = Some (robotParts
            ++ imap (fun k piece => robot_piece_model shifts (rbt + k) piece) pieces).
Proof.
  induction 1 as [|piece pieces Hok _ IH]; intros rbt shifts robotParts.
  - cbn. by rewrite app_nil_r.
  - cbn [configure_robot_from imap]. cbn zeta.
    rewrite getFCLModelFromScene1_shape by done.
    rewrite IH, <- app_assoc. cbn [app]. rewrite Nat.add_0_r.
    f_equal. f_equal. f_equal.
    apply imap_ext. intros k x _. cbn. f_equal. lia.
Qed.

(** Without assertions the conversion always returns. *)
Lemma getFCLModelFromScene_from_unchecked (scenes : list (option aiScene)) :
  NDEBUG = true ->
  forall i center pts triangles,
    is_Some (getFCLModelFromScene_from i scenes center pts triangles).
Proof.
  intros Hunchecked.
  induction scenes as [|source scenes IH]; intros i center pts triangles.
  - by eexists.
  - cbn [getFCLModelFromScene_from]. destruct source as [scene|]; cbn zeta.
    + rewrite assert_passes_unchecked by done. apply IH.
    + apply IH.
Qed.

Lemma configure_robot_from_unchecked (pieces : list (option aiScene)) :
  NDEBUG = true ->
  forall rbt shifts robotParts,
    is_Some (configure_robot_from rbt pieces shifts robotParts).
Proof.
  intros Hunchecked.
  induction pieces as [|piece pieces IH]; intros rbt shifts robotParts.
  - by eexists.
  - cbn [configure_robot_from]. cbn zeta.
    unfold getFCLModelFromScene1, getFCLModelFromScene.
    destruct (getFCLModelFromScene_from_unchecked [piece] Hunchecked 0
                [default aiVector3D_zero (shifts !! rbt)] [] []) as [tri_model ->].
    apply IH.
Qed.
End ConstructionShape.

Section ConstructionExtras.
Context `{FCL} `{Assimp} `{Build} {State : Type}.

(** X1.  Over mesh sources that are null or well formed, the conversion
    returns the points of the sources in order, each source shifted by
    the shift of its own index when there is one and left as it is
    otherwise, and the triangles of the sources in order.  The indices of
    a source's triangles count its own points from 0: they are not moved
    up by the points of the sources before it. *)
Theorem getFCLModelFromScene_sources_in_order (scenes : list (option aiScene))
    (center : list aiVector3D) :
  Forall well_formed scenes ->
  getFCLModelFromScene scenes center
  = Some (concat (imap (source_points center) scenes),
          concat (map source_triangles scenes)).
Proof.
  intros Hok. unfold getFCLModelFromScene.
  by rewrite getFCLModelFromScene_from_shape.
Qed.

(** X2.  Whenever the conversion returns in a build with assertions, and
    in any build when every source is null or well formed, it returns
    three points per triangle, and every triangle is made of three
    consecutive indices that are all below the number of points. *)
Theorem getFCLModelFromScene_triangles_within_points
    (scenes : list (option aiScene)) (center : list aiVector3D)
    (pts : list Vec3f) (triangles : list Triangle) :
  getFCLModelFromScene scenes center = Some (pts, triangles) ->
  NDEBUG = false \/ Forall well_formed scenes ->
  (3 * length triangles)%nat = length pts
  /\ Forall (triangle_within (length pts)) triangles.
Proof.
  intros Hsome Hchecked.
  assert (Hok : Forall well_formed scenes).
  { destruct Hchecked as [Hchecked|Hok]; [|done].
    destruct (all_well_formed_or_malformed scenes) as [Hok|Hbad]; [done|].
    unfold getFCLModelFromScene in Hsome.
    by rewrite getFCLModelFromScene_from_malformed in Hsome. }
  unfold getFCLModelFromScene in Hsome.
  rewrite getFCLModelFromScene_from_shape in Hsome by done.
  cbn [app] in Hsome. injection Hsome as <- <-.
  apply (sources_counts center scenes Hok 0).
Qed.

(** X3.  The constructor returns a wrapper exactly when the build has no
    assertions ([NDEBUG] defined) or every mesh source of the geometry
    specification, obstacle or robot piece, is null or has a point count
    that is a multiple of 3. *)
Theorem construction_returns_iff_well_formed (geom : GeometrySpecification)
    (se : State -> nat -> State) (selfCollision : bool)
    (poseCallback : State -> Vec3f * SimpleQuaternion) :
  is_Some (FCLMethodWrapper_new geom se selfCollision poseCallback)
  <-> NDEBUG = true
      \/ (Forall well_formed (obstacles geom) /\ Forall well_formed (robot geom)).
Proof.
  unfold FCLMethodWrapper_new, configure, getFCLModelFromScene. split.
  - intros Hsome.
    destruct NDEBUG eqn:Hchecked; [by left|right].
    destruct (all_well_formed_or_malformed (obstacles geom)) as [Hobst|Hbad].
    + split; [done|].
      destruct (all_well_formed_or_malformed (robot geom)) as [Hrobot|Hbad]; [done|].
      rewrite getFCLModelFromScene_from_shape in Hsome by done.
      rewrite configure_robot_from_malformed in Hsome by done.
      by destruct Hsome.
    + rewrite getFCLModelFromScene_from_malformed in Hsome by done.
      by destruct Hsome.
  - intros [Hunchecked|[Hobst Hrobot]].
    + destruct (getFCLModelFromScene_from_unchecked (obstacles geom) Hunchecked
                  0 (obstaclesShift geom) [] []) as [tri_model ->].
      cbn [robotParts_].
      by destruct (configure_robot_from_unchecked (robot geom) Hunchecked
                     0 (robotShift geom) []) as [parts ->].
    + rewrite getFCLModelFromScene_from_shape by done.
      by rewrite configure_robot_from_shape.
Qed.

(** X4.  The wrapper the constructor returns: the environment model
    holds the obstacle sources, converted together; [robotParts_] holds
    one model per entry of [robot], in order, each converted on its own
    with the shift [robotShift[rbt]], or the zero vector when
    [robotShift] is too short; every model is at the identity placement;
    the extractor, the flag and the callback are the ones given. *)
Theorem construction_builds_one_model_per_piece (geom : GeometrySpecification)
    (se : State -> nat -> State) (selfCollision : bool)
    (poseCallback : State -> Vec3f * SimpleQuaternion) :
  Forall well_formed (obstacles geom) -> Forall well_formed (robot geom) ->
  FCLMethodWrapper_new geom se selfCollision poseCallback
  = Some (mkFCLMethodWrapper
            (build_Model
               (concat (imap (source_points (obstaclesShift geom)) (obstacles geom)),
                concat (map source_triangles (obstacles geom))))
            (imap (robot_piece_model (robotShift geom)) (robot geom))
            se selfCollision poseCallback).
Proof.
  intros Hobst Hrobot.
  unfold FCLMethodWrapper_new, configure.
  unfold getFCLModelFromScene.
  rewrite getFCLModelFromScene_from_shape by done. cbn [app].
  by rewrite configure_robot_from_shape.
Qed.
End ConstructionExtras.

Section TraceFacts.
Context `{FCL} {State : Type}.

Implicit Types (w : FCLMethodWrapper State) (state : State).

Lemma for_loop_stopped {L} (continue : L -> bool) (body : nat -> L -> Query State L)
    count i l w :
  continue l = false -> for_loop continue count i body l w = (l, w, []).
Proof. intros Hstop. destruct count; simpl; [done|]. by rewrite Hstop. Qed.

(** A loop whose every iteration leaves a trace of the shape [G] leaves
    one of this shape: iterations that go on have reported nothing, and
    the one that stops the loop is the last. *)
Lemma for_loop_trace {L} (continue : L -> bool) (body : nat -> L -> Query State L)
    (G : L -> list (Call State) -> Prop) :
  (forall l, continue l = true -> G l []) ->
  (forall l calls, continue l = true -> G l calls -> contact_free calls) ->
  (forall l before calls, contact_free before -> G l calls -> G l (before ++ calls)) ->
  (forall i l w, continue l = true -> G (value (body i l w)) (trace (body i l w))) ->
  forall count i l w,
    continue l = true ->
    G (value (for_loop continue count i body l w))
      (trace (for_loop continue count i body l w)).
Proof.
  intros Hnil Hfree Hbefore Hbody count.
  induction count as [|count IH]; intros i l w Hgo; [by apply Hnil|].
  cbn [for_loop]. rewrite Hgo.
  rewrite value_bind, trace_bind.
  pose proof (Hbody i l w Hgo) as Hstep.
  destruct (continue (value (body i l w))) eqn:Hnext.
  - apply Hbefore; [by apply (Hfree (value (body i l w)))|].
    by apply IH.
  - rewrite for_loop_stopped by done. unfold value at 1, trace at 2; simpl.
    by rewrite app_nil_r.
Qed.

Lemma stops_at_contact_nil (valid : bool) :
  valid = true -> stops_at_contact (State:=State) valid [].
Proof. intros ->. constructor. Qed.

Lemma stops_at_contact_free (valid : bool) (calls : list (Call State)) :
  valid = true -> stops_at_contact valid calls -> contact_free calls.
Proof. by intros ->. Qed.

Lemma stops_at_contact_before (valid : bool) (before calls : list (Call State)) :
  contact_free before -> stops_at_contact valid calls ->
  stops_at_contact valid (before ++ calls).
Proof.
  intros Hfree. destruct valid; simpl.
  - intros Hcalls. by apply Forall_app.
  - intros (before' & c & -> & Hfree' & Hc).
    exists (before ++ before'), c. split; [by rewrite app_assoc|].
    split; [by apply Forall_app|done].
Qed.

Lemma trace_this w : trace (this w) = [].
Proof. done. Qed.

Lemma pose_calls_contact_free state (indices : list nat) :
  contact_free (map (Call_poseFromState state) indices).
Proof. apply Forall_forall. intros c Hc. apply list_elem_of_fmap in Hc as (i & -> & _). by intros ?. Qed.

Lemma environment_body_trace (env : Model) i (valid : bool) w :
  valid = true ->
  stops_at_contact
    (value ((part_i ← robotPart i;
             contacts ← fcl_collide part_i env;
             mret (valid && (contacts =? 0)%Z)) w))
    (trace ((part_i ← robotPart i;
             contacts ← fcl_collide part_i env;
             mret (valid && (contacts =? 0)%Z)) w)).
Proof.
  intros ->.
  unfold robotPart, fcl_collide, mbind, Query_bind, mret, Query_ret, value, trace; simpl.
  destruct (collide (robotParts_ w !!! i) env =? 0)%Z eqn:Hc; simpl.
  - apply Z.eqb_eq in Hc. constructor; [|constructor]. simpl. by intros ?.
  - apply Z.eqb_neq in Hc. exists [], (Call_collide (robotParts_ w !!! i) env).
    split; [done|]. split; [constructor|done].
Qed.

Lemma self_body_trace i j (valid : bool) w :
  valid = true ->
  stops_at_contact
    (value ((part_i ← robotPart i;
             part_j ← robotPart j;
             contacts ← fcl_collide part_i part_j;
             mret (valid && (contacts =? 0)%Z)) w))
    (trace ((part_i ← robotPart i;
             part_j ← robotPart j;
             contacts ← fcl_collide part_i part_j;
             mret (valid && (contacts =? 0)%Z)) w)).
Proof.
  intros ->.
  unfold robotPart, fcl_collide, mbind, Query_bind, mret, Query_ret, value, trace; simpl.
  destruct (collide (robotParts_ w !!! i) (robotParts_ w !!! j) =? 0)%Z eqn:Hc; simpl.
  - apply Z.eqb_eq in Hc. constructor; [|constructor]. simpl. by intros ?.
  - apply Z.eqb_neq in Hc.
    exists [], (Call_collide (robotParts_ w !!! i) (robotParts_ w !!! j)).
    split; [done|]. split; [constructor|done].
Qed.

(** X10.  The discrete query stops at the first contact.  If it returns
    true, no intersection test it ran reported a contact; if it returns
    false, the last call it made is an intersection test that reported
    one, and no test before it did. *)
Theorem isValid_stops_at_first_contact state w :
  stops_at_contact (value (isValid state w)) (trace (isValid state w)).
Proof.
  unfold isValid.
  rewrite value_bind, trace_bind, value_this, final_this, trace_this. cbn [app].
  rewrite value_bind, trace_bind.
  set (phase1 := if (0 <? num_tris (environment_ w))%Z then _ else _).
  assert (Hphase1 : stops_at_contact (value (phase1 w)) (trace (phase1 w))).
  { unfold phase1. destruct (0 <? num_tris (environment_ w))%Z; [|constructor].
    rewrite value_bind, trace_bind, transformRobot_run.
    apply stops_at_contact_before; [apply pose_calls_contact_free|].
    apply (for_loop_trace id _ stops_at_contact); try done.
    - apply stops_at_contact_nil.
    - apply stops_at_contact_free.
    - apply stops_at_contact_before.
    - intros i l w'. apply environment_body_trace. }
  destruct (selfCollision_ w && value (phase1 w)) eqn:Hself.
  - apply andb_true_iff in Hself as [_ Hvalid].
    apply stops_at_contact_before; [by apply (stops_at_contact_free _ _ Hvalid)|].
    apply (for_loop_trace id _ stops_at_contact); try done.
    + apply stops_at_contact_nil.
    + apply stops_at_contact_free.
    + apply stops_at_contact_before.
    + intros i l w' Hl.
      apply (for_loop_trace id _ stops_at_contact); try done.
      * apply stops_at_contact_nil.
      * apply stops_at_contact_free.
      * apply stops_at_contact_before.
      * intros j l' w''. apply self_body_trace.
  - rewrite value_ret. unfold trace at 2; simpl. by rewrite app_nil_r.
Qed.

Lemma stops_at_advancement_nil (r : bool * BVH_REAL) :
  r.1 = true -> stops_at_advancement (State:=State) r [].
Proof. unfold stops_at_advancement. intros ->. constructor. Qed.

Lemma stops_at_advancement_free (r : bool * BVH_REAL) (calls : list (Call State)) :
  r.1 = true -> stops_at_advancement r calls -> contact_free calls.
Proof. unfold stops_at_advancement. by intros ->. Qed.

Lemma stops_at_advancement_before (r : bool * BVH_REAL)
    (before calls : list (Call State)) :
  contact_free before -> stops_at_advancement r calls ->
  stops_at_advancement r (before ++ calls).
Proof.
  intros Hfree. unfold stops_at_advancement. destruct (r.1).
  - intros Hcalls. by apply Forall_app.
  - intros (before' & o1 & motion1 & o2 & motion2 & toc & -> & Hfree' & Hc & Ht).
    exists (before ++ before'), o1, motion1, o2, motion2, toc.
    split; [by rewrite app_assoc|]. split; [by apply Forall_app|done].
Qed.

Lemma advancement_test_trace (o1 : Model) (motion1 : InterpMotion) (o2 : Model)
    (motion2 : InterpMotion) (toc : BVH_REAL) w :
  stops_at_advancement
    (value (('(contacts, collisionTime) ←
               fcl_conservativeAdvancement o1 motion1 o2 motion2 toc;
             mret (true && (contacts =? 0)%Z, collisionTime)) w))
    (trace (('(contacts, collisionTime) ←
               fcl_conservativeAdvancement o1 motion1 o2 motion2 toc;
             mret (true && (contacts =? 0)%Z, collisionTime)) w)).
Proof.
  unfold fcl_conservativeAdvancement, mbind, Query_bind, mret, Query_ret, value, trace,
    stops_at_advancement.
  destruct (conservativeAdvancement o1 motion1 o2 motion2 toc) as [contacts toc'] eqn:Hrun.
  cbn [fst snd andb app].
  destruct (contacts =? 0)%Z eqn:Hc.
  - apply Z.eqb_eq in Hc. constructor; [|constructor]. simpl. rewrite Hrun. simpl. by intros Hne.
  - apply Z.eqb_neq in Hc. exists [], o1, motion1, o2, motion2, toc.
    rewrite Hrun. split; [done|]. split; [constructor|done].
Qed.

Lemma interpolate_trace (s1 s2 : State) i w :
  trace (interpolate s1 s2 i w) = [Call_poseFromState s1 i; Call_poseFromState s2 i].
Proof.
  unfold interpolate, poseFromState, trace, mbind, Query_bind.
  destruct (poseFromStateCallback_ w (extractState_ w s1 i)) as [trans1 quat1].
  by destruct (poseFromStateCallback_ w (extractState_ w s2 i)) as [trans2 quat2].
Qed.

Lemma interpolate_contact_free (s1 s2 : State) i w :
  contact_free (trace (interpolate s1 s2 i w)).
Proof.
  rewrite interpolate_trace.
  constructor; [by intros ?|]. constructor; [by intros ?|]. constructor.
Qed.

Lemma environment_motion_body_trace (s1 s2 : State) (env : Model) i
    (l : bool * BVH_REAL) w :
  l.1 = true ->
  stops_at_advancement
    (value
       ((let '(valid, collisionTime) := l in
         motion1 ← interpolate s1 s2 i;
         part_i ← robotPart i;
         '(contacts, collisionTime) ←
           fcl_conservativeAdvancement part_i motion1 env InterpMotion_default
             collisionTime;
         mret (valid && (contacts =? 0)%Z, collisionTime)) w))
    (trace
       ((let '(valid, collisionTime) := l in
         motion1 ← interpolate s1 s2 i;
         part_i ← robotPart i;
         '(contacts, collisionTime) ←
           fcl_conservativeAdvancement part_i motion1 env InterpMotion_default
             collisionTime;
         mret (valid && (contacts =? 0)%Z, collisionTime)) w)).
Proof.
  destruct l as [valid toc]. simpl. intros ->.
  rewrite value_bind, trace_bind, interpolate_final.
  apply stops_at_advancement_before; [apply interpolate_contact_free|].
  rewrite value_bind, trace_bind.
  change (trace (robotPart i w)) with (@nil (Call State)). cbn [app].
  apply advancement_test_trace.
Qed.

Lemma self_motion_body_trace (s1 s2 : State) (motion_i : InterpMotion) i j
    (l : bool * BVH_REAL) w :
  l.1 = true ->
  stops_at_advancement
    (value
       ((let '(valid, collisionTime) := l in
         motion_j ← interpolate s1 s2 j;
         part_i ← robotPart i;
         part_j ← robotPart j;
         '(contacts, collisionTime) ←
           fcl_conservativeAdvancement part_i motion_i part_j motion_j collisionTime;
         mret (valid && (contacts =? 0)%Z, collisionTime)) w))
    (trace
       ((let '(valid, collisionTime) := l in
         motion_j ← interpolate s1 s2 j;
         part_i ← robotPart i;
         part_j ← robotPart j;
         '(contacts, collisionTime) ←
           fcl_conservativeAdvancement part_i motion_i part_j motion_j collisionTime;
         mret (valid && (contacts =? 0)%Z, collisionTime)) w)).
Proof.
  destruct l as [valid toc]. simpl. intros ->.
  rewrite value_bind, trace_bind, interpolate_final.
  apply stops_at_advancement_before; [apply interpolate_contact_free|].
  rewrite value_bind, trace_bind.
  change (trace (robotPart i w)) with (@nil (Call State)). cbn [app].
  rewrite value_bind, trace_bind.
  change (trace (robotPart j (final (robotPart i w)))) with (@nil (Call State)).
  cbn [app].
  apply advancement_test_trace.
Qed.

(** X13.  The continuous query stops at the first contact and returns
    its time.  If it returns true, no conservative-advancement call
    reported a contact; if it returns false, the last call it made is a
    conservative-advancement call that reported one, no call before it
    did, and the time of contact returned is the one this call left. *)
Theorem isValid_motion_stops_at_first_contact (s1 s2 : State) w :
  stops_at_advancement (value (isValid_motion s1 s2 w)) (trace (isValid_motion s1 s2 w)).
Proof.
  unfold isValid_motion.
  rewrite value_bind, trace_bind, value_this, final_this, trace_this. cbn [app].
  rewrite value_bind, trace_bind.
  set (phase1 := if (0 <? num_tris (environment_ w))%Z then _ else _).
  assert (Hphase1 : stops_at_advancement (value (phase1 w)) (trace (phase1 w))).
  { unfold phase1. destruct (0 <? num_tris (environment_ w))%Z; [|constructor].
    apply (for_loop_trace fst _ stops_at_advancement); try done.
    - apply stops_at_advancement_nil.
    - apply stops_at_advancement_free.
    - apply stops_at_advancement_before.
    - intros i l w'. apply environment_motion_body_trace. }
  destruct (selfCollision_ w && (value (phase1 w)).1) eqn:Hself.
  - apply andb_true_iff in Hself as [_ Hvalid].
    apply stops_at_advancement_before;
      [by apply (stops_at_advancement_free _ _ Hvalid)|].
    apply (for_loop_trace fst _ stops_at_advancement); try done.
    + apply stops_at_advancement_nil.
    + apply stops_at_advancement_free.
    + apply stops_at_advancement_before.
    + intros i l w' Hl.
      rewrite value_bind, trace_bind, interpolate_final.
      apply stops_at_advancement_before; [apply interpolate_contact_free|].
      apply (for_loop_trace fst _ stops_at_advancement); try done.
      * apply stops_at_advancement_nil.
      * apply stops_at_advancement_free.
      * apply stops_at_advancement_before.
      * intros j l' w''. apply self_motion_body_trace.
  - rewrite value_ret. unfold trace at 2; simpl. by rewrite app_nil_r.
Qed.
End TraceFacts.

Section StateExtras.
Context `{FCL} {State : Type}.

Implicit Types (w : FCLMethodWrapper State) (state : State).

Lemma geometry_posed_parts state w :
  map geometry (posed_parts state w) = map geometry (robotParts_ w).
Proof.
  unfold posed_parts. apply list_eq. intros i.
  rewrite !list_lookup_fmap, list_lookup_imap.
  destruct (robotParts_ w !! i) as [part|]; [|done]. simpl. f_equal.
  unfold pose_part.
  by destruct (poseFromStateCallback_ w (extractState_ w state i)).
Qed.

Lemma geometry_parts_tested state w :
  map geometry (parts_tested state w) = map geometry (robotParts_ w).
Proof.
  unfold parts_tested. destruct (0 <? num_tris (environment_ w))%Z; [|done].
  apply geometry_posed_parts.
Qed.

Lemma clearance_final state w :
  final (clearance state w) = with_robotParts (parts_tested state w) w.
Proof. destruct (clearance_run state w) as [calls ->]. done. Qed.

(** X7.  [transformRobot], the discrete query and [clearance] change
    nothing but placements: the environment model, the number of parts,
    the vertices and triangles of every part, the extractor, the flag and
    the callback are after the call what they were before. *)
Theorem queries_keep_geometry state w :
  same_geometry w (final (transformRobot state w))
  /\ same_geometry w (final (isValid state w))
  /\ same_geometry w (final (clearance state w)).
Proof.
  rewrite transformRobot_run, isValid_final, clearance_final.
  unfold same_geometry, final; cbn [fst snd with_robotParts environment_ robotParts_
    extractState_ selfCollision_ poseFromStateCallback_].
  rewrite geometry_posed_parts, geometry_parts_tested. done.
Qed.

(** X6.  [transformRobot] overwrites: the wrapper it leaves does not
    depend on the poses an earlier [transformRobot] left. *)
Theorem transformRobot_overwrites state state' w :
  final (transformRobot state' (final (transformRobot state w)))
  = final (transformRobot state' w).
Proof.
  rewrite !transformRobot_run. unfold final; cbn [fst snd].
  rewrite posed_parts_again. done.
Qed.

(** X18.  The two queries that move the parts do not influence each
    other: [clearance] leaves the wrapper as the discrete query does, and
    what either returns after the other, or after itself, is what it
    returns on the wrapper as it was. *)
Theorem moving_queries_are_independent state state' w :
  final (clearance state w) = final (isValid state w)
  /\ value (isValid state' (final (clearance state w))) = value (isValid state' w)
  /\ value (clearance state' (final (isValid state w))) = value (clearance state' w)
  /\ value (clearance state' (final (clearance state w))) = value (clearance state' w).
Proof.
  assert (Hclearance : value (clearance state' (final (isValid state w)))
                       = value (clearance state' w)).
  { rewrite !clearance_value, isValid_final. unfold parts_tested.
    cbn [environment_ with_robotParts].
    destruct (0 <? num_tris (environment_ w))%Z; [|done].
    by rewrite posed_parts_again. }
  rewrite clearance_final, <- isValid_final.
  split; [done|]. split; [apply isValid_after_isValid|]. done.
Qed.
End StateExtras.

Section MoreExtras.
Context `{FCL} {State : Type}.

Implicit Types (w : FCLMethodWrapper State) (state : State).

Lemma distance_loop_trace (env : Model) (before todo : list Model) w dist :
  robotParts_ w = before ++ todo ->
  trace (for_loop (fun _ => true) (length todo) (length before)
           (fun i dist =>
              part_i ← robotPart i;
              min_distance ← fcl_distance env part_i;
              mret (if (min_distance <? dist)%float then min_distance else dist))
           dist w)
  = map (Call_distance env) todo.
Proof.
  revert before dist.
  induction todo as [|part todo IH]; intros before dist Hparts; [done|].
  set (body := fun (i : nat) (dist : float) => _ : Query State float).
  cbn [length for_loop map]. rewrite trace_bind.
  assert (Hfinal : final (body (length before) dist w) = w) by done.
  assert (Htrace : trace (body (length before) dist w) = [Call_distance env part]).
  { unfold body, robotPart, fcl_distance, mbind, Query_bind, mret, Query_ret, trace.
    cbn [fst snd app]. rewrite Hparts, list_lookup_total_middle; done. }
  rewrite Hfinal, Htrace. cbn [app]. f_equal.
  specialize (IH (before ++ [part]) (value (body (length before) dist w))).
  rewrite length_app in IH. cbn [length] in IH.
  replace (length before + 1)%nat with (S (length before)) in IH by lia.
  apply IH. by rewrite <- app_assoc.
Qed.

(** X16.  With a non-empty environment, [clearance] fetches the pose of
    every part, in order, and then measures every part against the
    environment, once each and in order, whatever the distances are; with
    an empty environment it calls nothing. *)
Theorem clearance_measures_every_part state w :
  trace (clearance state w)
  = if (0 <? num_tris (environment_ w))%Z
    then map (Call_poseFromState state) (seq 0 (length (robotParts_ w)))
         ++ map (Call_distance (environment_ w)) (posed_parts state w)
    else [].
Proof.
  unfold clearance. rewrite trace_bind. unfold this at 1 2 3; cbn [trace value final fst snd app].
  destruct (0 <? num_tris (environment_ w))%Z; [|done].
  rewrite trace_bind, transformRobot_run. unfold trace at 1, final; cbn [fst snd].
  f_equal.
  rewrite <- (length_posed_parts state w).
  by apply (distance_loop_trace (environment_ w) [] (posed_parts state w)).
Qed.

(** X17.  With a non-empty environment, what [clearance] returns is
    infinity or the distance of one of the parts, and no part's distance
    is below it; this needs nothing of the distances, which may be
    infinite or not numbers. *)
Theorem clearance_not_above_any_part state w :
  (0 < num_tris (environment_ w))%Z ->
  (value (clearance state w) = infinity
   \/ value (clearance state w)
        ∈ map (distance (environment_ w)) (posed_parts state w))
  /\ Forall (fun d => (d <? value (clearance state w))%float = false)
       (map (distance (environment_ w)) (posed_parts state w)).
Proof.
  intros Henv. apply Z.ltb_lt in Henv.
  rewrite clearance_value, Henv. split.
  - apply minimum_found.
  - apply Forall_forall. intros d Hd. by apply minimum_not_above.
Qed.

(** X14.  Self-collision checking only invalidates: a state, or a
    motion, that is valid with the flag set is valid without it. *)
Theorem selfCollision_only_invalidates state (s1 s2 : State) w :
  (value (isValid state (with_selfCollision true w)) = true ->
   value (isValid state (with_selfCollision false w)) = true)
  /\ ((value (isValid_motion s1 s2 (with_selfCollision true w))).1 = true ->
      (value (isValid_motion s1 s2 (with_selfCollision false w))).1 = true).
Proof.
  split.
  - rewrite !isValid_value.
    change (parts_tested state (with_selfCollision true w)) with (parts_tested state w).
    change (parts_tested state (with_selfCollision false w)) with (parts_tested state w).
    cbn [with_selfCollision environment_ robotParts_ selfCollision_].
    rewrite andb_true_r. by intros [? _]%andb_true_iff.
  - unfold isValid_motion.
    rewrite !value_bind, !value_this, !final_this.
    change (environment_ (with_selfCollision true w)) with (environment_ w).
    change (environment_ (with_selfCollision false w)) with (environment_ w).
    change (robotParts_ (with_selfCollision true w)) with (robotParts_ w).
    change (robotParts_ (with_selfCollision false w)) with (robotParts_ w).
    cbn [selfCollision_ with_selfCollision andb].
    set (phase1 := if (0 <? num_tris (environment_ w))%Z then _ else _).
    assert (Hsame : value (phase1 (with_selfCollision true w))
                    = value (phase1 (with_selfCollision false w))).
    { unfold phase1. destruct (0 <? num_tris (environment_ w))%Z; [|done].
      by rewrite !environment_motion_loop_flag. }
    fold (with_selfCollision true w) (with_selfCollision false w).
    rewrite value_ret, <- Hsame.
    destruct ((value (phase1 (with_selfCollision true w))).1) eqn:Hvalid; [done|].
    by rewrite value_ret, Hvalid.
Qed.
End MoreExtras.

Section LastExtras.
Context `{FCL} {State : Type}.

Implicit Types (w : FCLMethodWrapper State) (state : State).

Lemma for_loop_trace_Forall {L} (P : Call State -> Prop) (continue : L -> bool)
    (body : nat -> L -> Query State L) :
  (forall i l w, Forall P (trace (body i l w))) ->
  forall count i l w, Forall P (trace (for_loop continue count i body l w)).
Proof.
  intros Hbody count.
  induction count as [|count IH]; intros i l w; cbn [for_loop]; [constructor|].
  destruct (continue l); [|constructor].
  rewrite trace_bind. apply Forall_app. split; [apply Hbody|apply IH].
Qed.

(** X19.  The discrete query calls the pose callback and [fcl::collide]
    only; the continuous query calls the pose callback and
    [fcl::conservativeAdvancement] only. *)
Theorem queries_call_their_own_routines state (s1 s2 : State) w :
  Forall discrete_call (trace (isValid state w))
  /\ Forall continuous_call (trace (isValid_motion s1 s2 w)).
Proof.
  split.
  - unfold isValid. rewrite trace_bind. apply Forall_app. split; [constructor|].
    rewrite value_this, final_this, trace_bind. apply Forall_app. split.
    + destruct (0 <? num_tris (environment_ w))%Z; [|constructor].
      rewrite trace_bind, transformRobot_run. apply Forall_app. split.
      * apply Forall_forall. intros c Hc.
        by apply list_elem_of_fmap in Hc as (i & -> & _).
      * apply for_loop_trace_Forall. intros i l w'.
        unfold robotPart, fcl_collide, mbind, Query_bind, mret, Query_ret, trace.
        cbn [fst snd app]. by repeat constructor.
    + destruct (selfCollision_ w && _); [|constructor].
      apply for_loop_trace_Forall. intros i l w'.
      apply for_loop_trace_Forall. intros j l' w''.
      unfold robotPart, fcl_collide, mbind, Query_bind, mret, Query_ret, trace.
      cbn [fst snd app]. by repeat constructor.
  - assert (Hpose : forall i w', Forall continuous_call (trace (interpolate s1 s2 i w'))).
    { intros i w'. rewrite interpolate_trace. by repeat constructor. }
    assert (Htest : forall o1 motion1 o2 motion2 (valid : bool) toc w',
      Forall continuous_call
        (trace (('(contacts, collisionTime) ←
                   fcl_conservativeAdvancement o1 motion1 o2 motion2 toc;
                 mret (valid && (contacts =? 0)%Z, collisionTime)) w'))).
    { intros. unfold fcl_conservativeAdvancement, mbind, Query_bind, mret, Query_ret, trace.
      destruct (conservativeAdvancement _ _ _ _ _). cbn [fst snd app].
      by repeat constructor. }
    unfold isValid_motion. rewrite trace_bind. apply Forall_app. split; [constructor|].
    rewrite value_this, final_this, trace_bind. apply Forall_app. split.
    + destruct (0 <? num_tris (environment_ w))%Z; [|constructor].
      apply for_loop_trace_Forall. intros i [valid toc] w'.
      rewrite trace_bind. apply Forall_app. split; [apply Hpose|].
      rewrite trace_bind. apply Forall_app. split; [constructor|]. apply Htest.
    + destruct (selfCollision_ w && _); [|constructor].
      apply for_loop_trace_Forall. intros i l w'.
      rewrite trace_bind. apply Forall_app. split; [apply Hpose|].
      apply for_loop_trace_Forall. intros j [valid toc] w''.
      rewrite trace_bind. apply Forall_app. split; [apply Hpose|].
      rewrite trace_bind. apply Forall_app. split; [constructor|].
      rewrite trace_bind. apply Forall_app. split; [constructor|]. apply Htest.
Qed.

(** X5.  [transformRobot] gives part [i] the pose the callback returns
    for the substate of part [i], keeps the number of parts, and calls
    the callback once per part, in order. *)
Theorem transformRobot_poses_each_part state w (i : nat) (part : Model) :
  robotParts_ w !! i = Some part ->
  robotParts_ (final (transformRobot state w)) !! i
  = Some (setTransform (poseFromStateCallback_ w (extractState_ w state i)).2
            (poseFromStateCallback_ w (extractState_ w state i)).1 part)
  /\ length (robotParts_ (final (transformRobot state w))) = length (robotParts_ w)
  /\ trace (transformRobot state w)
     = map (Call_poseFromState state) (seq 0 (length (robotParts_ w))).
Proof.
  intros Hpart. rewrite transformRobot_run.
  unfold final, trace; cbn [fst snd with_robotParts robotParts_].
  rewrite length_posed_parts. split; [|done].
  unfold posed_parts. rewrite list_lookup_imap, Hpart. simpl. f_equal.
  unfold pose_part. by destruct (poseFromStateCallback_ w (extractState_ w state i)).
Qed.

(** X11.  With an environment model of zero triangles the discrete
    query does not read the state: its result, the wrapper it leaves and
    the calls it makes are the same for every state, and the wrapper is
    left as it was (the parts are not moved). *)
Theorem isValid_ignores_state_without_environment state state' w :
  num_tris (environment_ w) = 0%Z ->
  isValid state w = isValid state' w /\ final (isValid state w) = w.
Proof.
  intros Henv. split.
  - apply num_tris_empty in Henv.
    assert (Hfree : exists run, forall state0, isValid state0 w = run).
    { eexists. intros state0.
      unfold isValid, mbind at 1, Query_bind at 1, this. cbn beta iota.
      rewrite Henv. reflexivity. }
    destruct Hfree as [run Hrun]. by rewrite !Hrun.
  - rewrite isValid_final. unfold parts_tested.
    apply num_tris_empty in Henv. rewrite Henv. apply with_robotParts_same.
Qed.

(** X15.  With an environment model of zero triangles, a robot of at
    most one part is valid in every state and along every motion,
    whatever the self-collision flag; the time of contact is 1.0. *)
Theorem small_robot_valid_without_environment state (s1 s2 : State) w :
  num_tris (environment_ w) = 0%Z -> (length (robotParts_ w) <= 1)%nat ->
  value (isValid state w) = true
  /\ value (isValid_motion s1 s2 w) = (true, 1%float).
Proof.
  intros Henv Hsize. split.
  - rewrite isValid_value. apply num_tris_empty in Henv. rewrite Henv.
    rewrite clear_of_itself_small by done. by destruct (selfCollision_ w).
  - rewrite <- (isValid_motion_small s1 s2 w false) by done.
    by rewrite isValid_motion_empty_environment.
Qed.
End LastExtras.

Section SE2Extras.
Context `{FCL} {State : Type}.

Implicit Types (w : FCLMethodWrapper State) (state : State).

(** X20.  The wrapper under the settings of [SE2RigidBodyPlanning] (one
    part, no self-collision checking, the whole state as the substate of
    the part): the discrete query is one intersection test of the part,
    at the pose of the state, against the environment, and the
    continuous query is one conservative-advancement call on the motion
    between the poses of the two states; with an empty environment both
    are valid. *)
Theorem SE2_queries_test_one_part_against_environment state (s1 s2 : State) w :
  length (robotParts_ w) = SE2RigidBodyPlanning.getRobotCount ->
  selfCollision_ w = SE2RigidBodyPlanning.isSelfCollisionEnabled ->
  extractState_ w = SE2RigidBodyPlanning.getGeometricComponentStateInternal ->
  value (isValid state w)
  = (if (0 <? num_tris (environment_ w))%Z
     then (collide
             (setTransform (poseFromStateCallback_ w state).2
                (poseFromStateCallback_ w state).1 (robotParts_ w !!! 0%nat))
             (environment_ w) =? 0)%Z
     else true)
  /\ value (isValid_motion s1 s2 w)
     = (if (0 <? num_tris (environment_ w))%Z
        then
          let r :=
            conservativeAdvancement (robotParts_ w !!! 0%nat)
              (InterpMotion_between
                 (toRotation (poseFromStateCallback_ w s1).2)
                 (poseFromStateCallback_ w s1).1
                 (toRotation (poseFromStateCallback_ w s2).2)
                 (poseFromStateCallback_ w s2).1)
              (environment_ w) InterpMotion_default 1%float in
          ((r.1 =? 0)%Z, r.2)
        else (true, 1%float)).
Proof.
  unfold SE2RigidBodyPlanning.getRobotCount, SE2RigidBodyPlanning.isSelfCollisionEnabled.
  intros Hsize Hself Hextract.
  destruct w as [env parts se sc cb]. cbn in Hsize, Hself, Hextract. subst sc se.
  destruct parts as [|part [|part' parts]]; [done| |done].
  cbn [environment_ robotParts_ poseFromStateCallback_].
  split.
  - rewrite isValid_value. unfold parts_tested, clear_of_environment, posed_parts, pose_part.
    cbn [environment_ robotParts_ selfCollision_ extractState_ poseFromStateCallback_
         length seq forallb imap].
    unfold SE2RigidBodyPlanning.getGeometricComponentStateInternal.
    destruct (0 <? num_tris env)%Z; [|done].
    destruct (cb state) as [translation quaternion]. cbn.
    by rewrite !andb_true_r.
  - unfold isValid_motion.
    rewrite value_bind, value_this, final_this.
    cbn [environment_ robotParts_ selfCollision_ length andb].
    rewrite value_bind.
    destruct (0 <? num_tris env)%Z; [|done].
    rewrite value_ret. cbn [for_loop fst].
    rewrite value_bind. cbn [for_loop]. rewrite value_ret.
    rewrite value_bind, interpolate_final, interpolate_value.
    unfold motion_between, SE2RigidBodyPlanning.getGeometricComponentStateInternal.
    cbn [extractState_ poseFromStateCallback_].
    destruct (cb s1) as [trans1 quat1], (cb s2) as [trans2 quat2].
    unfold robotPart, fcl_conservativeAdvancement, mbind, Query_bind, mret, Query_ret, value.
    cbn [fst snd robotParts_].
    by destruct (conservativeAdvancement _ _ _ _ _).
Qed.
End SE2Extras.

(** ** The properties at work in the small world *)

Import World.

Lemma World_no_contact_keeps_time : no_contact_keeps_time.
Proof.
  intros o1 motion1 o2 motion2. unfold conservativeAdvancement, fcl.
  by repeat case_match.
Qed.

Lemma World_contact_time_in_range : contact_time_in_range.
Proof.
  intros o1 motion1 o2 motion2 toc. unfold conservativeAdvancement, fcl.
  repeat case_match; cbn [fst snd]; done.
Qed.

(** C1.  Where the code departs from the property: an engine with no
    obstacle, self-collision checking enabled and two parts that sit ten
    units apart as built.  The state brings the second part onto the
    first, so the two parts intersect at the poses of the state; the
    query, which has not moved the parts, tests them where they were
    built and returns true. *)
Theorem isValid_tests_parts_where_they_were :
  let w := the_engine two_parts true in
  let state := [0; -10]%float in
  engine two_parts true = Some w
  /\ num_tris (environment_ w) = 0%Z
  /\ selfCollision_ w = true
  /\ hits_itself (posed_parts state w)
  /\ ~ hits_itself (robotParts_ w)
  /\ value (isValid state w) = true.
Proof.
  intros w state. split; [done|]. split; [done|]. split; [done|].
  split; [|split].
  - eexists 0%nat, 1%nat, _, _.
    split; [lia|]. split; [reflexivity|]. split; [reflexivity|].
    vm_compute. discriminate.
  - apply clear_of_itself_iff. reflexivity.
  - reflexivity.
Qed.

(** C2 on the two-part engine without obstacle, self-collision disabled. *)
Lemma isValid_empty_environment_witness :
  isValid [0; -10]%float (the_engine two_parts false)
  = (true, the_engine two_parts false, []).
Proof. apply (isValid_empty_environment [0; -10]%float); reflexivity. Defined.

(** C3 on a motion that stops short of the obstacle. *)
Lemma isValid_motion_true_time_witness :
  (value (isValid_motion [0]%float [2]%float
            (the_engine one_part_one_obstacle false))).2 = 1%float.
Proof.
  apply (isValid_motion_true_time [0]%float [2]%float).
  - apply World_no_contact_keeps_time.
  - reflexivity.
Defined.

(** C4 on a motion that ends on the obstacle. *)
Lemma isValid_motion_false_time_witness :
  time_in_range
    (value (isValid_motion [0]%float [5]%float
              (the_engine one_part_one_obstacle false))).2.
Proof.
  apply (isValid_motion_false_time [0]%float [5]%float).
  - apply World_contact_time_in_range.
  - reflexivity.
Defined.

(** C5.  Where the property as first stated fails, on one obstacle
    triangle, so that the environment is not empty.  With a robot of no
    part [clearance] returns infinity.  With one part and a distance
    routine that reports infinity, [clearance] returns infinity, which
    is not a finite number.  With one part and a distance routine that
    reports a NaN, [clearance] returns infinity, which is not the
    distance reported. *)
Lemma clearance_infinite_over_environment :
  ~ (value (clearance [0]%float (the_engine no_part_one_obstacle false)) = infinity
     <-> num_tris (environment_ (the_engine no_part_one_obstacle false)) = 0%Z)
  /\ ~ (value (@clearance fcl_out_of_reach State [0]%float
                 (the_engine one_part_one_obstacle false)) = infinity
        <-> num_tris (environment_ (the_engine one_part_one_obstacle false)) = 0%Z)
  /\ ~ (num_tris (environment_ (the_engine one_part_one_obstacle false)) <> 0%Z ->
        finite_distance
          (value (@clearance fcl_out_of_reach State [0]%float
                    (the_engine one_part_one_obstacle false))))
  /\ ~ (num_tris (environment_ (the_engine one_part_one_obstacle false)) <> 0%Z ->
        value (@clearance fcl_no_number State [0]%float
                 (the_engine one_part_one_obstacle false))
          ∈ map (@distance fcl_no_number
                   (environment_ (the_engine one_part_one_obstacle false)))
              (@posed_parts fcl_no_number State [0]%float
                 (the_engine one_part_one_obstacle false))).
Proof.
  assert (Henv : num_tris (environment_ (the_engine one_part_one_obstacle false))
                 <> 0%Z) by (vm_compute; discriminate).
  split; [|split; [|split]].
  - intros [Hempty _].
    assert (Hinf : value (clearance [0]%float (the_engine no_part_one_obstacle false))
                   = infinity) by reflexivity.
    specialize (Hempty Hinf). vm_compute in Hempty. discriminate Hempty.
  - intros [Hempty _]. apply Henv, Hempty. reflexivity.
  - intros Hfinite. destruct (Hfinite Henv) as [_ Hlt].
    vm_compute in Hlt. discriminate Hlt.
  - intros Hin. specialize (Hin Henv).
    change (infinity ∈ [nan]) in Hin.
    apply elem_of_cons in Hin as [Hin|Hin]; [|by inversion Hin].
    apply (f_equal Prim2SF) in Hin. vm_compute in Hin. discriminate Hin.
Qed.

(** C5, as the code has it, on two parts: the first is four units from
    the obstacle, the second is brought to one unit from it, and the
    clearance is 1. *)
Lemma clearance_is_minimum_distance_witness :
  let w := the_engine two_parts_one_obstacle false in
  let state := [0; -3]%float in
  map (distance (environment_ w)) (posed_parts state w) = [4; 1]%float
  /\ value (clearance state w) = 1%float
  /\ (value (clearance state w)
        ∈ map (distance (environment_ w)) (posed_parts state w)
      /\ Forall (fun d => (value (clearance state w) <=? d)%float = true)
           (map (distance (environment_ w)) (posed_parts state w)))
  /\ (finite_distance (value (clearance state w))
      /\ value (clearance state w) <> infinity).
Proof.
  intros w state. split; [reflexivity|]. split; [reflexivity|].
  assert (Henv : num_tris (environment_ w) <> 0%Z) by (vm_compute; discriminate).
  assert (Hsome : robotParts_ w <> []) by discriminate.
  destruct (clearance_is_minimum_distance state w) as (_ & Hminimum & Hfinite).
  split.
  - apply (Hminimum Henv Hsome).
    constructor; [reflexivity|]. constructor; [reflexivity|]. constructor.
  - apply (Hfinite Henv Hsome).
    constructor; [split; reflexivity|].
    constructor; [split; reflexivity|]. constructor.
Defined.

(** C6.  Where the property as first stated fails: the robot part whose
    mesh source has four points, in a build with [NDEBUG].  No check is
    made; the constructor returns a wrapper whose part has the four
    points and the triangles (0, 1, 2) and (3, 4, 5). *)
Lemma construction_returns_without_assertions :
  Exists malformed (robot four_point_part)
  /\ @FCLMethodWrapper_new assimp without_assertions State four_point_part se false
       poseCallback
     = Some (mkFCLMethodWrapper
               (build_Model
                  ([mkVec3f 5 0 0; mkVec3f 6 0 0; mkVec3f 5 1 0], [mkTriangle 0 1 2]))
               [build_Model
                  ([mkVec3f 0 0 0; mkVec3f 1 0 0; mkVec3f 0 1 0; mkVec3f 0 0 1],
                   [mkTriangle 0 1 2; mkTriangle 3 4 5])]
               se false poseCallback).
Proof.
  split; [|reflexivity].
  apply Exists_cons_hd. exists four_points.
  split; [reflexivity|]. vm_compute. discriminate.
Qed.

(** C6, as the code has it, on the same robot part in the build with
    assertions. *)
Lemma construction_stops_on_malformed_mesh_witness :
  engine four_point_part false = None.
Proof.
  apply (construction_stops_on_malformed_mesh four_point_part).
  - reflexivity.
  - right. apply Exists_cons_hd. exists four_points.
    split; [reflexivity|]. vm_compute. discriminate.
Defined.

(** C7 on an engine with as many parts as [SE2RigidBodyPlanning] has. *)
Lemma selfCollision_irrelevant_for_small_robot_witness :
  let w := the_engine one_part_one_obstacle false in
  length (robotParts_ w) = SE2RigidBodyPlanning.getRobotCount
  /\ value (isValid [5]%float (with_selfCollision true w))
     = value (isValid [5]%float (with_selfCollision false w))
  /\ robotParts_ (final (isValid [5]%float (with_selfCollision true w)))
     = robotParts_ (final (isValid [5]%float (with_selfCollision false w)))
  /\ value (isValid_motion [0]%float [5]%float (with_selfCollision true w))
     = value (isValid_motion [0]%float [5]%float (with_selfCollision false w)).
Proof.
  intros w. split; [reflexivity|].
  apply (selfCollision_irrelevant_for_small_robot [5]%float [0]%float [5]%float w).
  simpl. lia.
Defined.

(** C10 on a geometry specification whose only obstacle source is null. *)
Lemma null_mesh_sources_are_skipped_witness :
  exists w,
    engine null_obstacle true = Some w
    /\ vertices (environment_ w) = []
    /\ num_tris (environment_ w) = 0%Z
    /\ Forall2 empty_if_null (robot null_obstacle) (robotParts_ w)
    /\ forall state s1 s2,
        value (clearance state w) = infinity
        /\ value (isValid state (with_selfCollision false w)) = true
        /\ value (isValid_motion s1 s2 (with_selfCollision false w)) = (true, 1%float).
Proof.
  apply (null_mesh_sources_are_skipped null_obstacle se true poseCallback).
  - constructor; [reflexivity|constructor].
  - constructor; [|constructor].
    intros scene Hscene. injection Hscene as <-. reflexivity.
Defined.

(** ** The further properties at work in the small world *)

(** X1 on two obstacle triangles with a shift for the first only. *)
Lemma getFCLModelFromScene_sources_in_order_witness :
  getFCLModelFromScene [Some (triangle_at 0); None; Some (triangle_at 5)]
    [(1, 1, 1)%float]
  = Some ([mkVec3f (-1) (-1) (-1); mkVec3f 0 (-1) (-1); mkVec3f (-1) 0 (-1);
           mkVec3f 5 0 0; mkVec3f 6 0 0; mkVec3f 5 1 0],
          [mkTriangle 0 1 2; mkTriangle 0 1 2]).
Proof.
  apply (getFCLModelFromScene_sources_in_order
           [Some (triangle_at 0); None; Some (triangle_at 5)] [(1, 1, 1)%float]).
  repeat constructor; intros scene Hscene; try injection Hscene as <-; try done.
Defined.

(** X2 on the same sources. *)
Lemma getFCLModelFromScene_triangles_within_points_witness :
  (3 * 2 = 6)%nat
  /\ Forall (triangle_within 6) [mkTriangle 0 1 2; mkTriangle 0 1 2].
Proof.
  apply (getFCLModelFromScene_triangles_within_points
           [Some (triangle_at 0); None; Some (triangle_at 5)] [(1, 1, 1)%float]
           [mkVec3f (-1) (-1) (-1); mkVec3f 0 (-1) (-1); mkVec3f (-1) 0 (-1);
            mkVec3f 5 0 0; mkVec3f 6 0 0; mkVec3f 5 1 0]
           [mkTriangle 0 1 2; mkTriangle 0 1 2]).
  - reflexivity.
  - left. reflexivity.
Defined.

(** X4 on one part and one obstacle. *)
Lemma construction_builds_one_model_per_piece_witness :
  engine one_part_one_obstacle true
  = Some (mkFCLMethodWrapper
            (build_Model
               ([mkVec3f 5 0 0; mkVec3f 6 0 0; mkVec3f 5 1 0], [mkTriangle 0 1 2]))
            [build_Model
               ([mkVec3f 0 0 0; mkVec3f 1 0 0; mkVec3f 0 1 0], [mkTriangle 0 1 2])]
            se true poseCallback).
Proof.
  apply (construction_builds_one_model_per_piece one_part_one_obstacle se true
           poseCallback).
  - repeat constructor. intros scene Hscene. by injection Hscene as <-.
  - repeat constructor. intros scene Hscene. by injection Hscene as <-.
Defined.

(** X5 on the second of two parts. *)
Lemma transformRobot_poses_each_part_witness :
  let w := the_engine two_parts true in
  let state := [0; -10]%float in
  robotParts_ (final (transformRobot state w)) !! 1%nat
  = Some (setTransform SimpleQuaternion_default (mkVec3f (-10) 0 0)
            (robotParts_ w !!! 1%nat))
  /\ length (robotParts_ (final (transformRobot state w))) = 2%nat
  /\ trace (transformRobot state w)
     = [Call_poseFromState state 0; Call_poseFromState state 1].
Proof.
  intros w state.
  apply (transformRobot_poses_each_part state w 1 (robotParts_ w !!! 1%nat)).
  reflexivity.
Defined.

(** X8 on a part brought onto the obstacle. *)
Lemma isValid_nonempty_environment_witness :
  let w := the_engine one_part_one_obstacle true in
  value (isValid [5]%float w) = true
  <-> ~ hits_environment (posed_parts [5]%float w) (environment_ w)
      /\ (selfCollision_ w = false \/ ~ hits_itself (posed_parts [5]%float w)).
Proof.
  intros w. apply (isValid_nonempty_environment [5]%float w). reflexivity.
Defined.

(** X9 on the same, self-collision checking disabled. *)
Lemma isValid_without_selfCollision_witness :
  let w := the_engine one_part_one_obstacle false in
  value (isValid [5]%float w) = true
  <-> num_tris (environment_ w) = 0%Z
      \/ ~ hits_environment (posed_parts [5]%float w) (environment_ w).
Proof.
  intros w. apply (isValid_without_selfCollision [5]%float w). reflexivity.
Defined.

(** X11 on the two parts without obstacle. *)
Lemma isValid_ignores_state_without_environment_witness :
  let w := the_engine two_parts true in
  isValid [0; -10]%float w = isValid [3; 4]%float w
  /\ final (isValid [0; -10]%float w) = w.
Proof.
  intros w. apply (isValid_ignores_state_without_environment [0; -10]%float [3; 4]%float w).
  reflexivity.
Defined.

(** X15 on one part under a null obstacle source. *)
Lemma small_robot_valid_without_environment_witness :
  let w := the_engine null_obstacle true in
  value (isValid [5]%float w) = true
  /\ value (isValid_motion [0]%float [5]%float w) = (true, 1%float).
Proof.
  intros w.
  apply (small_robot_valid_without_environment [5]%float [0]%float [5]%float w).
  - reflexivity.
  - simpl. lia.
Defined.

(** X17 on one part four units from the obstacle. *)
Lemma clearance_not_above_any_part_witness :
  let w := the_engine one_part_one_obstacle false in
  (value (clearance [0]%float w) = infinity
   \/ value (clearance [0]%float w)
        ∈ map (distance (environment_ w)) (posed_parts [0]%float w))
  /\ Forall (fun d => (d <? value (clearance [0]%float w))%float = false)
       (map (distance (environment_ w)) (posed_parts [0]%float w)).
Proof.
  intros w. apply (clearance_not_above_any_part [0]%float w). reflexivity.
Defined.

(** X20 on the one-part engine with the extractor and the flag of
    [SE2RigidBodyPlanning]. *)
Lemma SE2_queries_test_one_part_against_environment_witness :
  let e := the_engine one_part_one_obstacle false in
  let w :=
    mkFCLMethodWrapper (environment_ e) (robotParts_ e)
      SE2RigidBodyPlanning.getGeometricComponentStateInternal
      SE2RigidBodyPlanning.isSelfCollisionEnabled poseCallback in
  value (isValid [5]%float w) = false
  /\ value (isValid_motion [0]%float [5]%float w) = (false, 0.5%float).
Proof.
  intros e w.
  destruct (SE2_queries_test_one_part_against_environment
              [5]%float [0]%float [5]%float w) as [Hdiscrete Hcontinuous];
    [reflexivity|reflexivity|reflexivity|].
  rewrite Hdiscrete, Hcontinuous. split; reflexivity.
Defined.
